(** * Wind module renderer of the e-paper weather station

    The repository holds four successive versions of one rendering routine,
    [WindRenderer.render], each kept as a backup file:

    - [backup/wind_layout_fix_20250815_175437/wind_renderer.py]  (centred layout)
    - [backup/wind_layout_fix_20250817_164437/wind_renderer.py]  (horizontal layout)
    - [backup/wind_text_bounds_fix_20250817_165040/wind_renderer.py] (symmetric layout)
    - [backup/wind_clean_final_20250817_180020/wind_renderer.py] (collision-safe layout)

    The routine talks to collaborators that live outside these files (logger,
    drawing backend, icon manager, font registry, base-class helpers).  Every
    such call is an effect: the embedding is a small free monad [Prog] over the
    signature [Call] of collaborator calls, with Python exceptions and the
    [try ... except Exception] of the source written out. *)

From Stdlib Require Import ZArith NArith List Bool Lia String Ascii DecimalString.
Import ListNotations.
Local Open Scope Z_scope.

(** ** Python strings

    A Python [str] is a sequence of Unicode code points; [len], slicing and
    [strip] count code points, so a string is a list of code points. *)

Definition char := N.
Definition pystr := list char.

(** Decoding of the UTF-8 bytes of a literal of this file into code points. *)
Fixpoint utf8_decode (bs : list N) : pystr :=
  match bs with
  | [] => []
  | b0 :: t0 =>
    if (b0 <? 128)%N then b0 :: utf8_decode t0
    else
      match t0 with
      | [] => []
      | b1 :: t1 =>
        if (b0 <? 224)%N then ((b0 - 192) * 64 + (b1 - 128))%N :: utf8_decode t1
        else
          match t1 with
          | [] => []
          | b2 :: t2 =>
            if (b0 <? 240)%N
            then ((b0 - 224) * 4096 + (b1 - 128) * 64 + (b2 - 128))%N :: utf8_decode t2
            else
              match t2 with
              | [] => []
              | b3 :: t3 =>
                ((b0 - 240) * 262144 + (b1 - 128) * 4096
                 + (b2 - 128) * 64 + (b3 - 128))%N :: utf8_decode t3
              end
          end
      end
  end.

Definition py (s : string) : pystr :=
  utf8_decode (map N_of_ascii (list_ascii_of_string s)).

(** [str.isspace] on one code point: the code points Python treats as
    whitespace in [split], [strip] and [rstrip]. *)
Definition isspace (c : char) : bool :=
  ((9 <=? c) && (c <=? 13) || (28 <=? c) && (c <=? 32)
   || (c =? 133) || (c =? 160) || (c =? 5760)
   || (8192 <=? c) && (c <=? 8202)
   || (c =? 8232) || (c =? 8233) || (c =? 8239) || (c =? 8287)
   || (c =? 12288))%N.

(** Truth value of a string: the empty string is false. *)
Definition truthy (s : pystr) : bool :=
  match s with [] => false | _ :: _ => true end.

(** [len(s)] *)
Definition len {A} (l : list A) : Z := Z.of_nat (List.length l).

(** [s.split()]: maximal runs of non-whitespace code points. *)
Fixpoint split_from (s cur : pystr) : list pystr :=
  match s with
  | [] => if truthy cur then [cur] else []
  | c :: s' =>
    if isspace c
    then (if truthy cur then cur :: split_from s' [] else split_from s' [])
    else split_from s' (cur ++ [c])
  end.

Definition split (s : pystr) : list pystr := split_from s [].

(** [s.lstrip()], [s.rstrip()], [s.strip()] *)
Fixpoint lstrip (s : pystr) : pystr :=
  match s with
  | [] => []
  | c :: s' => if isspace c then lstrip s' else s
  end.

Definition rstrip (s : pystr) : pystr := rev (lstrip (rev s)).

Definition strip (s : pystr) : pystr := rstrip (lstrip s).

(** [sep.join(l)] *)
Fixpoint join (sep : pystr) (l : list pystr) : pystr :=
  match l with
  | [] => []
  | [w] => w
  | w :: l' => w ++ sep ++ join sep l'
  end.

(** [l[:n]] for any integer [n]: a negative bound counts from the end. *)
Definition slice_to {A} (l : list A) (n : Z) : list A :=
  if 0 <=? n then firstn (Z.to_nat n) l
  else firstn (Z.to_nat (len l + n)) l.

(** [s[:-1]] *)
Definition drop_last {A} (l : list A) : list A := slice_to l (-1).

(** ** Python dicts

    A dict keeps its keys in insertion order, each key once. *)

Definition PyDict (V : Type) : Type := list (pystr * V).

Definition str_eqb (a b : pystr) : bool :=
  if list_eq_dec N.eq_dec a b then true else false.

(** [d.get(k)] *)
Fixpoint dict_get {V} (d : PyDict V) (k : pystr) : option V :=
  match d with
  | [] => None
  | (k', v') :: d' => if str_eqb k' k then Some v' else dict_get d' k
  end.

(** [d[k] = v]: a key that is there keeps its place, a new key goes last. *)
Fixpoint dict_set {V} (d : PyDict V) (k : pystr) (v : V) : PyDict V :=
  match d with
  | [] => [(k, v)]
  | (k', v') :: d' =>
    if str_eqb k' k then (k', v) :: d' else (k', v') :: dict_set d' k v
  end.

(** [d.update(other)] *)
Definition dict_update {V} (d other : PyDict V) : PyDict V :=
  fold_left (fun acc kv => dict_set acc (fst kv) (snd kv)) other d.

(** [list(d.keys())] *)
Definition dict_keys {V} (d : PyDict V) : list pystr := map fst d.

Definition space : pystr := py " ".
(** The double quote, which a literal of this file cannot hold. *)
Definition dq : pystr := [34%N].
Definition ellipsis : pystr := py "…".
Definition arrow : pystr := py "→".

(** ** Exceptions, versions and the collaborators' interface *)

(** A Python exception object.  [except Exception] catches the instances of
    [Exception]; [KeyboardInterrupt], [SystemExit] and [GeneratorExit] derive
    from [BaseException] only. *)
Inductive PyExc : Type :=
| Exc (cls : string)
| BaseExc (cls : string).

Definition is_Exception (e : PyExc) : bool :=
  match e with Exc _ => true | BaseExc _ => false end.

(** The four versions of [wind_renderer.py]. *)
Inductive Version : Type :=
| layout_fix_0815     (* backup/wind_layout_fix_20250815_175437 *)
| layout_fix_0817     (* backup/wind_layout_fix_20250817_164437 *)
| text_bounds_fix     (* backup/wind_text_bounds_fix_20250817_165040 *)
| clean_final.        (* backup/wind_clean_final_20250817_180020 *)

(** What the renderer takes from its platform: the types of the collaborators'
    values and the Python built-ins whose result the layout never inspects. *)
Class Platform : Type := {
  Value : Type;                  (* a Python float *)
  Font : Type;                   (* a loaded font *)
  Icon : Type;                   (* a loaded icon image *)
  Dict : Type;                   (* a mapping object (weather_data, context_data) *)
  zero : Value;                  (* the literal 0.0 *)
  format_1f : Value -> pystr;    (* f"{v:.1f}" *)
  upper : pystr -> pystr;        (* str.upper *)
  lower : pystr -> pystr         (* str.lower *)
}.

(** The conversion passed to [safe_get_value]: the type object [float]. *)
Inductive Conv : Type := conv_float.

(** A bounding box [(left, top, right, bottom)] as [draw.textbbox] returns it. *)
Record BBox : Type := mkBBox { bb0 : Z; bb1 : Z; bb2 : Z; bb3 : Z }.

(** The log messages of the four versions, with the values their f-strings
    interpolate. *)
Inductive Msg : Type :=
| MsgRendering (v : Version) (width height : Z)
    (* "Renderar ... wind-modul ({width}x{height})" *)
| MsgRendered (v : Version) (speed_1f speed_description direction_short : pystr)
    (* "... wind-modul ...: {wind_speed:.1f}m/s {speed_description}, {direction_short}" *)
| MsgRenderingFailed (v : Version) (e : PyExc)
    (* "Fel vid ... wind rendering: {e}" *)
| MsgCollisionGuard
    (* "Kollisionsskydd aktiverat - ikon flyttad" *)
| MsgIllustrationRendered (size : Z * Z) (icon_x icon_y : Z)
    (* "Illustration-ikon renderad kollisionssakert: {size} pa ({icon_x}, {icon_y})" *)
| MsgIllustrationMissing
    (* "Illustration-ikon saknas" *)
| MsgCardinalCode (cardinal_code : pystr) (loaded : bool)
    (* "Cardinal code: '{cardinal_code}', ikon: {cardinal_icon is not None}" *)
| MsgCardinalLoaded (cardinal_code : pystr)
    (* "Cardinal ikon laddad for: {cardinal_code}" *)
| MsgCardinalNotLoaded (cardinal_code : pystr)
    (* "Cardinal ikon SAKNAS for: {cardinal_code}" *)
| MsgAlternativeCode (alt_code : pystr)
    (* "Anvander alternativ kod: {alt_code}" *)
| MsgCardinalRendered (cardinal_code : pystr) (size : Z * Z) (cursor_x base_y : Z)
    (* "Kardinalpil renderad: {cardinal_code} ({size}) pa ({cursor_x}, {base_y})" *)
| MsgCardinalAbsent (cardinal_code : pystr).
    (* "KARDINALPIL SAKNAS HELT for kod: {cardinal_code}" *)

Section Interface.
Context {P : Platform}.

(** The ways to change a mapping in place (what [pop], [popitem] and
    [setdefault] return is left out). *)
Inductive Change : Type :=
| set_item (key : pystr) (value : Value)       (* data[key] = value *)
| del_item (key : pystr)                       (* del data[key] *)
| pop_item (key : pystr)                       (* data.pop(key, None) *)
| pop_last                                     (* data.popitem() *)
| set_default (key : pystr) (value : Value)    (* data.setdefault(key, value) *)
| update_from (other : Dict)                   (* data.update(other) *)
| clear_items.                                 (* data.clear() *)

(** What a method of the renderer can do besides computing with its local
    names, indexed by the type of the result: the calls on the collaborators,
    which are those the four versions of [render] make, and the operations
    Python offers on a mapping and on the renderer's own attributes, by which
    a method changes its arguments or keeps a value from one call to the next.
    [None] stands for Python's [None]. *)
Inductive Call : Type -> Type :=
(* self.logger *)
| logger_info (m : Msg) : Call unit
| logger_warning (m : Msg) : Call unit
| logger_error (m : Msg) : Call unit
(* base class ModuleRenderer *)
| safe_get_value (data : Dict) (key : pystr) (default : Value) (conv : Conv) : Call Value
| get_text_bounds (text : pystr) (font : option Font) : Call (Z * Z)
| draw_text_with_fallback (xy : Z * Z) (text : pystr) (font : option Font) (fill : Z) : Call unit
| paste_icon_on_canvas (icon : Icon) (x y : Z) : Call unit
| render_fallback_content (x y width height : Z) (message : pystr) : Call bool
(* self.icon_manager *)
| get_wind_description_swedish (wind_speed : Value) : Call pystr
| get_wind_direction_info (wind_direction : Value) : Call (pystr * pystr)
| get_system_icon (name : pystr) (size : Z * Z) : Call (option Icon)
| get_wind_icon (code : pystr) (size : Z * Z) : Call (option Icon)
(* self.fonts: dict.get(key, default) *)
| fonts_get (key : pystr) (default : option Font) : Call (option Font)
(* self.draw *)
| draw_rectangle (p0 p1 : Z * Z) (outline width : Z) : Call unit
| draw_text (xy : Z * Z) (text : pystr) (font : option Font) (fill : Z) : Call unit
| draw_textbbox (xy : Z * Z) (text : pystr) (font : option Font) : Call BBox
(* a mapping, and the attributes of self *)
| change_mapping (data : Dict) (how : Change) : Call unit
| set_attribute (name : pystr) (value : Value) : Call unit   (* self.<name> = value *)
| get_attribute (name : pystr) : Call Value.                 (* self.<name> *)

(** A call, whatever its result type: the entries of a run's trace. *)
Inductive Event : Type :=
| Ev {R : Type} (c : Call R).

(** ** Programs

    A program returns, raises, or makes a call and goes on with the
    answer, which is a value or an exception. *)
Inductive Prog (A : Type) : Type :=
| Ret (a : A)
| Raise (e : PyExc)
| Vis {R : Type} (c : Call R) (k : PyExc + R -> Prog A).

Arguments Ret {A} a.
Arguments Raise {A} e.
Arguments Vis {A R} c k.

Fixpoint bind {A B} (m : Prog A) (f : A -> Prog B) : Prog B :=
  match m with
  | Ret a => f a
  | Raise e => Raise e
  | Vis c k => Vis c (fun r => bind (k r) f)
  end.

(** A call whose exception propagates. *)
Definition call {R} (c : Call R) : Prog R :=
  Vis c (fun r => match r with inl e => Raise e | inr v => Ret v end).

(** [try: body  except Exception as e: handler e] *)
Fixpoint try_except_Exception {A} (body : Prog A) (handler : PyExc -> Prog A) : Prog A :=
  match body with
  | Ret a => Ret a
  | Raise e => if is_Exception e then handler e else Raise e
  | Vis c k => Vis c (fun r => try_except_Exception (k r) handler)
  end.

(** [for i, a in enumerate(l): body i a], counting from [i]. *)
Fixpoint for_enumerate {A} (i : Z) (l : list A) (body : Z -> A -> Prog unit) : Prog unit :=
  match l with
  | [] => Ret tt
  | a :: l' => bind (body i a) (fun _ => for_enumerate (i + 1) l' body)
  end.

End Interface.

Arguments Ret {P A} a.
Arguments Raise {P A} e.
Arguments Vis {P A R} c k.

Declare Scope prog_scope.
Delimit Scope prog_scope with prog.
Notation "x <- m ;; k" := (bind m (fun x => k))
  (at level 61, m at next level, right associativity) : prog_scope.
Notation "' pat <- m ;; k" := (bind m (fun x => match x with pat => k end))
  (at level 61, pat pattern, m at next level, right associativity) : prog_scope.
Notation "m ;; k" := (bind m (fun _ => k))
  (at level 61, right associativity) : prog_scope.
Local Open Scope prog_scope.

(** ** Running a program against its collaborators

    What surrounds the method (the collaborators, the mappings, the
    renderer's attributes) is an oracle with a state of its own: each call
    gets a value or an exception and may change that state. *)
Record Oracle {P : Platform} (S : Type) : Type := {
  respond : forall R, Call R -> S -> (PyExc + R) * S
}.
Arguments respond {P S} o {R} c s.

Record Outcome {P : Platform} (S A : Type) : Type := {
  result : PyExc + A;       (* the value returned or the exception propagated *)
  trace : list Event;       (* the calls made, in order *)
  final : S                 (* the state of the surroundings afterwards *)
}.
Arguments result {P S A} o.
Arguments trace {P S A} o.
Arguments final {P S A} o.

Fixpoint run {P : Platform} {S A} (o : Oracle S) (p : Prog A) (s : S) : Outcome S A :=
  match p with
  | Ret a => {| result := inr a; trace := []; final := s |}
  | Raise e => {| result := inl e; trace := []; final := s |}
  | Vis c k =>
    let rs := respond o c s in
    let out := run o (k (fst rs)) (snd rs) in
    {| result := result out; trace := Ev c :: trace out; final := final out |}
  end.

(** ** The renderers *)

Section Renderers.
Context {P : Platform}.

(** [if icon: paste_icon_on_canvas(icon, x, y)] *)
Definition paste_if (icon : option Icon) (x y : Z) : Prog unit :=
  match icon with
  | Some i => call (paste_icon_on_canvas i x y)
  | None => Ret tt
  end.

(** [self.fonts.get(key, self.fonts.get(alt))]: the inner lookup runs first. *)
Definition fonts_get2 (key alt : pystr) : Prog (option Font) :=
  d <- call (fonts_get alt None) ;;
  call (fonts_get key d).

Definition placeholder : pystr := py "Wind-data ej tillgänglig".

(** The [except Exception as e] block, the same in the four versions. *)
Definition on_exception (v : Version) (x y width height : Z) (e : PyExc) : Prog bool :=
  call (logger_error (MsgRenderingFailed v e)) ;;
  call (render_fallback_content x y width height placeholder).

(** *** backup/wind_layout_fix_20250815_175437: body of the [try] *)
Definition body_layout_fix_0815 (x y width height : Z)
    (weather_data context_data : Dict) : Prog bool :=
  call (logger_info (MsgRendering layout_fix_0815 width height)) ;;
  wind_speed <- call (safe_get_value weather_data (py "wind_speed") zero conv_float) ;;
  wind_direction <- call (safe_get_value weather_data (py "wind_direction") zero conv_float) ;;
  speed_description <- call (get_wind_description_swedish wind_speed) ;;
  '(direction_short, cardinal_code) <- call (get_wind_direction_info wind_direction) ;;
  (* 1. general wind icon *)
  general_wind_icon <- call (get_system_icon (py "strong-wind") (48, 48)) ;;
  let icon_center_x := x + (width / 2) - 24 in
  paste_if general_wind_icon icon_center_x (y + 15) ;;
  (* 2. m/s value *)
  let ms_text := format_1f wind_speed ++ py " m/s" in
  let ms_center_x := x + (width / 2) in
  ms_font <- fonts_get2 (py "hero_temp") (py "small_main") ;;
  call (draw_text_with_fallback (ms_center_x - 50, y + 75) ms_text ms_font 0) ;;
  (* 3. description *)
  let desc_center_x := x + (width / 2) in
  desc_font <- fonts_get2 (py "medium_desc") (py "small_desc") ;;
  call (draw_text_with_fallback (desc_center_x - 40, y + 115) speed_description desc_font 0) ;;
  (* 4. arrow icon *)
  cardinal_icon <- call (get_wind_icon cardinal_code (32, 32)) ;;
  let cardinal_center_x := x + (width / 2) - 16 in
  paste_if cardinal_icon cardinal_center_x (y + 150) ;;
  (* 5. short direction *)
  let direction_x := cardinal_center_x + 40 in
  dir_font <- fonts_get2 (py "medium_desc") (py "small_desc") ;;
  call (draw_text_with_fallback (direction_x, y + 155) direction_short dir_font 0) ;;
  call (logger_info (MsgRendered layout_fix_0815 (format_1f wind_speed)
                                 speed_description direction_short)) ;;
  Ret true.

(** *** backup/wind_layout_fix_20250817_164437: body of the [try] *)
Definition body_layout_fix_0817 (x y width height : Z)
    (weather_data context_data : Dict) : Prog bool :=
  call (logger_info (MsgRendering layout_fix_0817 width height)) ;;
  wind_speed <- call (safe_get_value weather_data (py "wind_speed") zero conv_float) ;;
  wind_direction <- call (safe_get_value weather_data (py "wind_direction") zero conv_float) ;;
  speed_description <- call (get_wind_description_swedish wind_speed) ;;
  '(direction_short, cardinal_code) <- call (get_wind_direction_info wind_direction) ;;
  (* 1. general wind icon *)
  general_wind_icon <- call (get_system_icon (py "strong-wind") (48, 48)) ;;
  let icon_x := x + 20 in
  let icon_y := y + 25 in
  paste_if general_wind_icon icon_x icon_y ;;
  (* 2. m/s value *)
  let ms_text := format_1f wind_speed ++ py " m/s" in
  let ms_x := icon_x + 60 in
  let ms_y := y + 35 in
  ms_font <- fonts_get2 (py "hero_temp") (py "small_main") ;;
  call (draw_text_with_fallback (ms_x, ms_y) ms_text ms_font 0) ;;
  (* 3. description *)
  let desc_x := ms_x in
  let desc_y := ms_y + 50 in
  desc_font <- fonts_get2 (py "medium_desc") (py "small_desc") ;;
  call (draw_text_with_fallback (desc_x, desc_y) speed_description desc_font 0) ;;
  (* 4. arrow icon *)
  cardinal_icon <- call (get_wind_icon cardinal_code (32, 32)) ;;
  let cardinal_x := x + 30 in
  let cardinal_y := y + height - 50 in
  paste_if cardinal_icon cardinal_x cardinal_y ;;
  (* 5. short direction *)
  let direction_x := cardinal_x + 40 in
  let direction_y := cardinal_y + 5 in
  dir_font <- fonts_get2 (py "medium_desc") (py "small_desc") ;;
  call (draw_text_with_fallback (direction_x, direction_y) direction_short dir_font 0) ;;
  call (logger_info (MsgRendered layout_fix_0817 (format_1f wind_speed)
                                 speed_description direction_short)) ;;
  Ret true.

(** *** backup/wind_text_bounds_fix_20250817_165040: body of the [try] *)
Definition body_text_bounds_fix (x y width height : Z)
    (weather_data context_data : Dict) : Prog bool :=
  call (logger_info (MsgRendering text_bounds_fix width height)) ;;
  wind_speed <- call (safe_get_value weather_data (py "wind_speed") zero conv_float) ;;
  wind_direction <- call (safe_get_value weather_data (py "wind_direction") zero conv_float) ;;
  speed_description <- call (get_wind_description_swedish wind_speed) ;;
  '(direction_short, cardinal_code) <- call (get_wind_direction_info wind_direction) ;;
  (* module frame *)
  call (draw_rectangle (x + 2, y + 2) (x + width - 2, y + height - 2) 0 2) ;;
  let center_x := x + width / 2 in
  (* 1. general wind icon *)
  general_wind_icon <- call (get_system_icon (py "strong-wind") (40, 40)) ;;
  paste_if general_wind_icon (center_x - 20) (y + 25) ;;
  (* 2. m/s value *)
  let ms_text := format_1f wind_speed ++ py " m/s" in
  bounds_font <- fonts_get2 (py "large_main") (py "medium_main") ;;
  text_bbox <- call (get_text_bounds ms_text bounds_font) ;;
  let ms_x := center_x - fst text_bbox / 2 in
  let ms_y := y + 80 in
  ms_font <- fonts_get2 (py "large_main") (py "medium_main") ;;
  call (draw_text_with_fallback (ms_x, ms_y) ms_text ms_font 0) ;;
  (* 3. description *)
  desc_bounds_font <- fonts_get2 (py "medium_main") (py "small_main") ;;
  desc_bbox <- call (get_text_bounds speed_description desc_bounds_font) ;;
  let desc_x := center_x - fst desc_bbox / 2 in
  let desc_y := ms_y + 40 in
  desc_font <- fonts_get2 (py "medium_main") (py "small_main") ;;
  call (draw_text_with_fallback (desc_x, desc_y) speed_description desc_font 0) ;;
  (* 4. arrow icon *)
  cardinal_icon <- call (get_wind_icon cardinal_code (24, 24)) ;;
  let direction_y_base := y + height - 45 in
  dir_bounds_font <- fonts_get2 (py "small_main") (py "small_desc") ;;
  direction_text_bbox <- call (get_text_bounds direction_short dir_bounds_font) ;;
  let combined_width := 24 + 8 + fst direction_text_bbox in
  let combined_x := center_x - combined_width / 2 in
  paste_if cardinal_icon combined_x direction_y_base ;;
  (* 5. short direction *)
  let direction_x := combined_x + 24 + 8 in
  let direction_y := direction_y_base + 2 in
  dir_font <- fonts_get2 (py "small_main") (py "small_desc") ;;
  call (draw_text_with_fallback (direction_x, direction_y) direction_short dir_font 0) ;;
  call (logger_info (MsgRendered text_bounds_fix (format_1f wind_speed)
                                 speed_description direction_short)) ;;
  Ret true.

(** *** backup/wind_clean_final_20250817_180020 *)

(** The closures [text_width] and [text_height] of [render]. *)
Definition text_width (text : pystr) (font : option Font) : Prog Z :=
  bbox <- call (draw_textbbox (0, 0) text font) ;;
  Ret (bb2 bbox - bb0 bbox).

Definition text_height (text : pystr) (font : option Font) : Prog Z :=
  bbox <- call (draw_textbbox (0, 0) text font) ;;
  Ret (bb3 bbox - bb1 bbox).

(** [while text_width(rest + "…", font) > max_w and len(rest) > 3:
        rest = rest[:-1].rstrip()]
    Every turn shortens [rest], so [S (length rest)] turns are enough
    (see [ellipsize_fuel]). *)
Fixpoint ellipsize (fuel : nat) (rest : pystr) (font : option Font) (max_w : Z)
  : Prog pystr :=
  match fuel with
  | O => Ret rest
  | S fuel' =>
    w <- text_width (rest ++ ellipsis) font ;;
    if (max_w <? w) && (3 <? len rest)
    then ellipsize fuel' (rstrip (drop_last rest)) font max_w
    else Ret rest
  end.

(** The [for i, w in enumerate(words)] loop of [wrap2_ellips] and the two
    statements after it; [words] is what is left of the list, so that
    [words[i:]] is [w :: words']. *)
Fixpoint wrap_loop (font : option Font) (max_w max_lines : Z)
    (words lines : list pystr) (cur : pystr) : Prog (list pystr) :=
  match words with
  | [] =>
    let lines := if truthy cur then lines ++ [cur] else lines in
    Ret (slice_to lines max_lines)
  | w :: words' =>
    let test := strip (cur ++ space ++ w) in
    tw <- text_width test font ;;
    if tw <=? max_w then wrap_loop font max_w max_lines words' lines test
    else
      let lines := if truthy cur then lines ++ [cur] else lines in
      let cur := w in
      if len lines =? max_lines - 1 then
        let rest_words := w :: words' in
        let rest0 := join space rest_words in
        rest <- ellipsize (S (List.length rest0)) rest0 font max_w ;;
        Ret (lines ++ [rest ++ (if len rest <? len (join space rest_words)
                                then ellipsis else [])])
      else wrap_loop font max_w max_lines words' lines cur
  end.

Definition wrap2_ellips (text : pystr) (font : option Font) (max_w max_lines : Z)
  : Prog (list pystr) :=
  let words := split text in
  match words with
  | [] => Ret [text]
  | _ :: _ => wrap_loop font max_w max_lines words [] []
  end.

(** [for alt_code in alt_codes: ... break] *)
Fixpoint try_alt_codes (alt_codes : list pystr) (size : Z * Z)
    (cardinal_icon : option Icon) : Prog (option Icon) :=
  match alt_codes with
  | [] => Ret cardinal_icon
  | alt_code :: alt_codes' =>
    alt_icon <- call (get_wind_icon alt_code size) ;;
    match alt_icon with
    | Some _ =>
      call (logger_info (MsgAlternativeCode alt_code)) ;;
      Ret alt_icon
    | None => try_alt_codes alt_codes' size cardinal_icon
    end
  end.

Definition body_clean_final (x y width height : Z)
    (weather_data context_data : Dict) : Prog bool :=
  call (logger_info (MsgRendering clean_final width height)) ;;
  let PADDING := 20 in
  let ROW_GAP_PRIMARY := 36 in
  let RIGHT_ICON_SIZE := (32, 32) in
  let RIGHT_ICON_INSET := 24 in
  let CARDINAL_ICON_SIZE := (32, 32) in
  let CARDINAL_GAP := 8 in
  let BOTTOM_ZONE_INSET := 20 in
  let MAX_DESC_WIDTH := 172 in
  let MAX_DESC_LINES := 2 in
  let LINE_GAP := 6 in
  let RIGHT_COLUMN_W := fst RIGHT_ICON_SIZE + RIGHT_ICON_INSET in
  let PRIMARY_MAX_W := width - PADDING - RIGHT_COLUMN_W - PADDING in
  wind_speed <- call (safe_get_value weather_data (py "wind_speed") zero conv_float) ;;
  wind_direction <- call (safe_get_value weather_data (py "wind_direction") zero conv_float) ;;
  speed_description <- call (get_wind_description_swedish wind_speed) ;;
  '(direction_short, cardinal_code) <- call (get_wind_direction_info wind_direction) ;;
  (* module frame *)
  call (draw_rectangle (x + 2, y + 2) (x + width - 2, y + height - 2) 0 2) ;;
  let center_x := x + width / 2 in
  let left_x := x + PADDING in
  let right_icon_x := x + width - RIGHT_ICON_INSET - fst RIGHT_ICON_SIZE in
  (* 1. m/s value *)
  let ms_text := format_1f wind_speed ++ py " m/s" in
  ms_font <- fonts_get2 (py "large_main") (py "medium_main") ;;
  ms_bbox <- call (draw_textbbox (0, 0) ms_text ms_font) ;;
  let ms_x := left_x in
  let ms_y := y + PADDING in
  call (draw_text_with_fallback (ms_x, ms_y) ms_text ms_font 0) ;;
  (* 2. description, wrapped *)
  desc_font <- fonts_get2 (py "small_main") (py "small_desc") ;;
  let raw_desc := speed_description in
  desc_lines <- wrap2_ellips raw_desc desc_font MAX_DESC_WIDTH MAX_DESC_LINES ;;
  let desc_x := left_x in
  let ms_height := bb3 ms_bbox - bb1 ms_bbox in
  let desc_y := ms_y + ms_height + ROW_GAP_PRIMARY in
  for_enumerate 0 desc_lines (fun i line =>
    h <- text_height line desc_font ;;
    let line_y := desc_y + i * (h + LINE_GAP) in
    call (draw_text_with_fallback (desc_x, line_y) line desc_font 0)) ;;
  (* 3. illustration icon *)
  wind_icon <- call (get_system_icon (py "strong-wind") RIGHT_ICON_SIZE) ;;
  match wind_icon with
  | Some icon =>
    let icon_x := right_icon_x in
    let icon_y := y + PADDING / 2 in
    ms_w <- text_width ms_text ms_font ;;
    let ms_right_edge := ms_x + ms_w in
    icon_y <- (if x + PADDING + PRIMARY_MAX_W <? ms_right_edge + 12
               then let icon_y := desc_y - 4 in
                    call (logger_info MsgCollisionGuard) ;; Ret icon_y
               else Ret icon_y) ;;
    call (paste_icon_on_canvas icon icon_x icon_y) ;;
    call (logger_info (MsgIllustrationRendered RIGHT_ICON_SIZE icon_x icon_y))
  | None => call (logger_warning MsgIllustrationMissing)
  end ;;
  (* 4. direction *)
  cardinal_icon <- call (get_wind_icon cardinal_code CARDINAL_ICON_SIZE) ;;
  label_font <- call (fonts_get (py "small_main") desc_font) ;;
  call (logger_info (MsgCardinalCode cardinal_code
                       (match cardinal_icon with Some _ => true | None => false end))) ;;
  cardinal_icon <-
    match cardinal_icon with
    | Some _ =>
      call (logger_info (MsgCardinalLoaded cardinal_code)) ;; Ret cardinal_icon
    | None =>
      call (logger_warning (MsgCardinalNotLoaded cardinal_code)) ;;
      let alt_codes := [py "n"; py "N"; upper cardinal_code; lower cardinal_code] in
      try_alt_codes alt_codes CARDINAL_ICON_SIZE cardinal_icon
    end ;;
  label_w <- text_width direction_short label_font ;;
  let icon_w := match cardinal_icon with Some _ => fst CARDINAL_ICON_SIZE | None => 0 end in
  let gap := match cardinal_icon with Some _ => CARDINAL_GAP | None => 0 end in
  let combined_w := icon_w + gap + label_w in
  let base_y := y + height - BOTTOM_ZONE_INSET - snd CARDINAL_ICON_SIZE in
  let start_x := x + (width - combined_w) / 2 in
  let cursor_x := start_x in
  cursor_x <-
    match cardinal_icon with
    | Some icon =>
      call (paste_icon_on_canvas icon cursor_x base_y) ;;
      let cursor_x := cursor_x + (fst CARDINAL_ICON_SIZE + gap) in
      call (logger_info (MsgCardinalRendered cardinal_code CARDINAL_ICON_SIZE
                                             cursor_x base_y)) ;;
      Ret cursor_x
    | None =>
      call (logger_error (MsgCardinalAbsent cardinal_code)) ;;
      call (draw_text (start_x, base_y) arrow label_font 0) ;;
      Ret (cursor_x + 20)
    end ;;
  label_h <- text_height direction_short label_font ;;
  let label_y := base_y + (snd CARDINAL_ICON_SIZE - label_h) / 2 in
  call (draw_text_with_fallback (cursor_x, label_y) direction_short label_font 0) ;;
  call (logger_info (MsgRendered clean_final (format_1f wind_speed)
                                 speed_description direction_short)) ;;
  Ret true.

(** *** [WindRenderer.render] *)

Definition body (v : Version) : Z -> Z -> Z -> Z -> Dict -> Dict -> Prog bool :=
  match v with
  | layout_fix_0815 => body_layout_fix_0815
  | layout_fix_0817 => body_layout_fix_0817
  | text_bounds_fix => body_text_bounds_fix
  | clean_final => body_clean_final
  end.

Definition render (v : Version) (x y width height : Z)
    (weather_data context_data : Dict) : Prog bool :=
  try_except_Exception
    (body v x y width height weather_data context_data)
    (on_exception v x y width height).

(** *** [WindRenderer.get_required_data_sources]: one definition per file *)

Definition get_required_data_sources_layout_fix_0815 {Self : Type} (self : Self)
  : list pystr := [py "smhi"].
Definition get_required_data_sources_layout_fix_0817 {Self : Type} (self : Self)
  : list pystr := [py "smhi"].
Definition get_required_data_sources_text_bounds_fix {Self : Type} (self : Self)
  : list pystr := [py "smhi"].
Definition get_required_data_sources_clean_final {Self : Type} (self : Self)
  : list pystr := [py "smhi"].

Definition get_required_data_sources (v : Version) {Self : Type} (self : Self)
  : list pystr :=
  match v with
  | layout_fix_0815 => get_required_data_sources_layout_fix_0815 self
  | layout_fix_0817 => get_required_data_sources_layout_fix_0817 self
  | text_bounds_fix => get_required_data_sources_text_bounds_fix self
  | clean_final => get_required_data_sources_clean_final self
  end.

End Renderers.

(** *** [WindRenderer.get_module_info]

    [info = super().get_module_info(); info.update({...}); return info]: the
    dict of the base class, which is not in these files, is the argument. *)

(** A value of the info dict: a string, a list of strings, or what the base
    class put there. *)
Inductive InfoValue (B : Type) : Type :=
| text_value (s : pystr)
| list_value (l : list pystr)
| base_value (b : B).

Arguments text_value {B} s.
Arguments list_value {B} l.
Arguments base_value {B} b.

(** The dict literals handed to [info.update], one per file. *)
Definition module_info_layout_fix_0815 {B : Type} : PyDict (InfoValue B) :=
  [(py "purpose", text_value (py "Visa vindstyrka och vindriktning med svenska benämningar"));
   (py "data_sources",
      list_value
       [py "SMHI vindprognoser (ws + wd parametrar)"]);
   (py "layout", text_value (py "Ersätter barometer-modulen (MEDIUM 1 position)"));
   (py "features",
      list_value
       [py "CYKEL-FOKUSERAD layout för snabba wind-beslut";
        py "M/S-värde PROMINENT (hero_temp font) - huvuddata";
        py "Generell vind-ikon (wi-strong-wind.png) centrerad överst";
        py "Korta svenska vindförkortningar (SV, NO, etc.) från kompass";
        py "Pil-ikon för exakt vindriktning från wind-biblioteket";
        py "Centrerad layout utan tekniska detaljer (inga grader/datakälla)";
        py "Optimal utnyttjande av E-Paper skärmyta (240×200px)";
        (py "Vindstyrka enligt " ++ dq ++ py "Benämning på land" ++ dq ++ py " för kontext")])].

Definition module_info_layout_fix_0817 {B : Type} : PyDict (InfoValue B) :=
  [(py "purpose", text_value (py "Visa vindstyrka och vindriktning med svenska benämningar"));
   (py "data_sources",
      list_value
       [py "SMHI vindprognoser (ws + wd parametrar)"]);
   (py "layout", text_value (py "Ersätter barometer-modulen (MEDIUM 1 position)"));
   (py "features",
      list_value
       [py "HORISONTELL CYKEL-FOKUSERAD layout för optimal utrymmesutnyttjande";
        py "Generell vind-ikon + M/S-värde på SAMMA RAD (effektiv design)";
        py "M/S-värde PROMINENT (hero_temp font) - huvuddata för cykling";
        py "Korta svenska vindförkortningar (SV, NO, etc.) från kompass";
        py "Pil-ikon för exakt vindriktning från wind-biblioteket";
        py "Horisontell layout sparar utrymme på E-Paper (240×200px)";
        (py "Vindstyrka enligt " ++ dq ++ py "Benämning på land" ++ dq ++ py " för kontext");
        py "FÖRBÄTTRAD: Ikon + M/S samma rad istället för slöseri med vertikal layout"])].

Definition module_info_text_bounds_fix {B : Type} : PyDict (InfoValue B) :=
  [(py "purpose", text_value (py "Visa vindstyrka och vindriktning med svenska benämningar"));
   (py "data_sources",
      list_value
       [py "SMHI vindprognoser (ws + wd parametrar)"]);
   (py "layout", text_value (py "Ersätter barometer-modulen (MEDIUM 1 position)"));
   (py "features",
      list_value
       [py "✅ FIXAD LAYOUT: Modulram som andra moduler";
        py "✅ SYMMETRISK CENTRERING: Alla element balanserade";
        py "✅ HUVUDDATA PROMINENT: M/S + beskrivning som fokus";
        py "✅ LAGOM STORLEKAR: Ikoner och text får plats i modulen";
        py "✅ SEKUNDÄRDATA DISKRET: Vindriktning mindre men synlig";
        py "✅ CYKEL-OPTIMERAD: Snabb avläsning för cykel-beslut";
        py "M/S-värde LAGOM STORT (large_main font) - får plats i ram";
        py "Beskrivande text BALANSERAD (medium_main font)";
        py "Allmän vindikon LAGOM (40px) - synlig men tar inte över";
        py "Vindriktning DISKRET (24px pil + small_main text)";
        py "Korta svenska vindförkortningar (SV, NO, etc.)";
        py "Symmetrisk centrering för professionell look som andra moduler"])].

Definition module_info_clean_final {B : Type} : PyDict (InfoValue B) :=
  [(py "purpose", text_value (py "Professionell vindmodul med korrekt informationshierarki"));
   (py "data_sources",
      list_value
       [py "SMHI vindprognoser (ws + wd parametrar)"]);
   (py "layout", text_value (py "Ersätter barometer-modulen (MEDIUM 1 position)"));
   (py "design", text_value (py "Kollegans UX-analys implementerad"));
   (py "features",
      list_value
       [py "✅ KOLLISIONSSÄKER DESIGN: Inga krockar mellan text och ikoner";
        (py "✅ RADBRYTNING: " ++ dq ++ py "Måttlig vind" ++ dq ++ py " på två rader istället för " ++ dq ++ py "Måttlig..." ++ dq);
        py "✅ HÖGERKOLUMN-SKYDD: Text kan aldrig nå ikoner i högerkolumn";
        py "✅ MINDRE VINDIKON: 32×32px istället för 40×40px för mindre krockrisk";
        py "✅ KARDINALPIL DEBUG: Omfattande logging och fallback för riktningspil";
        py "✅ INFORMATIONSHIERARKI: M/s → beskrivning → riktning (kollegans UX)";
        py "✅ CYKEL-FOKUSERAD: Snabb avläsning av vindförhållanden";
        py "M/s-värde PRIMÄR (large_main font, vänster positioning)";
        py "Beskrivande text RADBRUTEN (max 2 rader, 172px bredd)";
        py "Illustration-ikon SÄKER (32×32px höger, kollisionsskydd)";
        py "Kardinalpil ROBUST (32×32px med alternativa koder och fallback)";
        py "Högerkolumn reserverad (ikoner kan aldrig krocka med text)";
        py "Generöst spacing: 20px padding, 36px radavstånd, 6px radgap";
        py "KOLLISIONSSÄKER: Implementerar kollegans konkreta fixar";
        py "Professionell E-Paper design optimerad för cykel-användning"])].

Definition module_info (v : Version) {B : Type} : PyDict (InfoValue B) :=
  match v with
  | layout_fix_0815 => module_info_layout_fix_0815
  | layout_fix_0817 => module_info_layout_fix_0817
  | text_bounds_fix => module_info_text_bounds_fix
  | clean_final => module_info_clean_final
  end.

Definition get_module_info (v : Version) {B : Type}
    (super_get_module_info : PyDict (InfoValue B)) : PyDict (InfoValue B) :=
  let info := super_get_module_info in
  let info := dict_update info (module_info v) in
  info.

(** * Specification vocabulary *)

(** ** Words *)

(** A word: a non-empty string without whitespace, as [split] yields them. *)
Definition word (w : pystr) : Prop :=
  w <> [] /\ Forall (fun c => isspace c = false) w.

(** The whitespace-normalized text: its words joined by single spaces. *)
Definition normalized (text : pystr) : pystr := join space (split text).

(** The lines keep the text [whole]: joined by single spaces they give it
    back, or the last line ends with the ellipsis and what stands before it is
    a proper beginning of the text. *)
Definition keeps_text (whole : pystr) (lines : list pystr) : Prop :=
  join space lines = whole \/
  exists init stem rest,
    lines = init ++ [stem ++ ellipsis] /\
    whole = join space (init ++ [stem]) ++ rest /\
    rest <> [].

(** Width of a bounding box. *)
Definition bbox_width (b : BBox) : Z := bb2 b - bb0 b.

Section Observations.
Context {P : Platform}.

(** ** What a run shows *)

(** The anchor point of a text drawn or the top-left corner of an icon pasted. *)
Definition placement (ev : Event) : option (Z * Z) :=
  match ev with
  | Ev c =>
    match c with
    | draw_text_with_fallback xy _ _ _ => Some xy
    | draw_text xy _ _ _ => Some xy
    | paste_icon_on_canvas _ x y => Some (x, y)
    | _ => None
    end
  end.

(** The point [p] lies in the region [x, x+width] x [y, y+height]. *)
Definition within (x y width height : Z) (p : Z * Z) : Prop :=
  x <= fst p <= x + width /\ y <= snd p <= y + height.

Definition placed (x y width height : Z) (ev : Event) : Prop :=
  match placement ev with
  | Some p => within x y width height p
  | None => True
  end.

Definition withinb (x y width height : Z) (p : Z * Z) : bool :=
  (x <=? fst p) && (fst p <=? x + width) && (y <=? snd p) && (snd p <=? y + height).

Definition placedb (x y width height : Z) (ev : Event) : bool :=
  match placement ev with
  | Some p => withinb x y width height p
  | None => true
  end.

(** A text measurement by [draw.textbbox]. *)
Definition measuring (ev : Event) : Prop :=
  match ev with
  | Ev c =>
    match c with
    | draw_textbbox _ _ _ => True
    | _ => False
    end
  end.

(** The strings handed to [draw_text_with_fallback], in order. *)
Definition text_of (ev : Event) : list pystr :=
  match ev with
  | Ev c =>
    match c with
    | draw_text_with_fallback _ text _ _ => [text]
    | _ => []
    end
  end.

Definition texts_drawn (tr : list Event) : list pystr := flat_map text_of tr.

(** The reads of a mapping: the arguments of the [safe_get_value] calls. *)
Definition read_of (ev : Event) : list (Dict * pystr * Value * Conv) :=
  match ev with
  | Ev c =>
    match c with
    | safe_get_value data key default conv => [(data, key, default, conv)]
    | _ => []
    end
  end.

Definition data_reads (tr : list Event) : list (Dict * pystr * Value * Conv) :=
  flat_map read_of tr.

(** The values handed to the icon manager for a description or a direction. *)
Inductive Conversion : Type :=
| described (wind_speed : Value)
| directed (wind_direction : Value).

Definition conversion_of (ev : Event) : list Conversion :=
  match ev with
  | Ev c =>
    match c with
    | get_wind_description_swedish v => [described v]
    | get_wind_direction_info v => [directed v]
    | _ => []
    end
  end.

Definition conversions (tr : list Event) : list Conversion := flat_map conversion_of tr.

(** The codes looked up with [get_wind_icon]. *)
Definition wind_icon_code_of (ev : Event) : list pystr :=
  match ev with
  | Ev c =>
    match c with
    | get_wind_icon code _ => [code]
    | _ => []
    end
  end.

Definition wind_icon_codes (tr : list Event) : list pystr := flat_map wind_icon_code_of tr.

(** The rectangles drawn: corners, outline colour and line width. *)
Definition rectangle_of (ev : Event) : list ((Z * Z) * (Z * Z) * Z * Z) :=
  match ev with
  | Ev c =>
    match c with
    | draw_rectangle p0 p1 outline width => [(p0, p1, outline, width)]
    | _ => []
    end
  end.

(** The frame of the module: [(x + 2, y + 2), (x + width - 2, y + height - 2)],
    outline 0, line width 2. *)
Definition frame (x y width height : Z) : (Z * Z) * (Z * Z) * Z * Z :=
  ((x + 2, y + 2), (x + width - 2, y + height - 2), 0, 2).

(** The versions that draw the frame. *)
Definition has_frame (v : Version) : bool :=
  match v with
  | layout_fix_0815 | layout_fix_0817 => false
  | text_bounds_fix | clean_final => true
  end.

Definition rectangles (tr : list Event) : list ((Z * Z) * (Z * Z) * Z * Z) :=
  flat_map rectangle_of tr.

(** What a call does to the world around the renderer. *)
Inductive Effect : Type :=
| Logs      (* writes a log record *)
| Draws     (* paints on the drawing surface *)
| Reads     (* asks for a value *)
| Changes.  (* changes a mapping or an attribute of the renderer *)

Definition effect_of (ev : Event) : Effect :=
  match ev with
  | Ev c =>
    match c with
    | logger_info _ | logger_warning _ | logger_error _ => Logs
    | draw_text_with_fallback _ _ _ _ | paste_icon_on_canvas _ _ _
    | render_fallback_content _ _ _ _ _
    | draw_rectangle _ _ _ _ | draw_text _ _ _ _ => Draws
    | safe_get_value _ _ _ _ | get_text_bounds _ _
    | get_wind_description_swedish _ | get_wind_direction_info _
    | get_system_icon _ _ | get_wind_icon _ _ | fonts_get _ _
    | draw_textbbox _ _ _ | get_attribute _ => Reads
    | change_mapping _ _ | set_attribute _ _ => Changes
    end
  end.

(** A call on a collaborator, as opposed to an operation on a mapping or on an
    attribute of the renderer. *)
Definition collaborator (ev : Event) : bool :=
  match ev with
  | Ev c =>
    match c with
    | change_mapping _ _ | set_attribute _ _ | get_attribute _ => false
    | _ => true
    end
  end.

Definition is_read (ev : Event) : bool :=
  match effect_of ev with Reads => true | _ => false end.

Definition is_draw (ev : Event) : bool :=
  match effect_of ev with Draws => true | _ => false end.

(** The sequence of draw calls of a trace. *)
Definition draw_calls (tr : list Event) : list Event := filter is_draw tr.

(** An event as a draw call, if it is one. *)
Definition draw_of (ev : Event) : list Event := if is_draw ev then [ev] else [].

(** The state of the surroundings after the drawing and logging calls of a
    trace alone. *)
Fixpoint replay {S} (o : Oracle S) (tr : list Event) (s : S) : S :=
  match tr with
  | [] => s
  | Ev c :: tr' =>
    if is_read (Ev c) then replay o tr' s
    else replay o tr' (snd (respond o c s))
  end.

(** The state of the surroundings after the calls of a trace. *)
Fixpoint after {S} (o : Oracle S) (tr : list Event) (s : S) : S :=
  match tr with
  | [] => s
  | Ev c :: tr' => after o tr' (snd (respond o c s))
  end.

(** Identical responses from the collaborators: at each call that the trace
    makes on a collaborator, the second surroundings, having seen the same
    calls, give the answer the first give.  Nothing is asked of the answers
    to operations on a mapping or on an attribute of the renderer. *)
Definition responses_agree {S1 S2} (o1 : Oracle S1) (s1 : S1)
    (o2 : Oracle S2) (s2 : S2) (tr : list Event) : Prop :=
  forall before R (c : Call R) rest,
    tr = before ++ Ev c :: rest ->
    collaborator (Ev c) = true ->
    fst (respond o1 c (after o1 before s1))
    = fst (respond o2 c (after o2 before s2)).

(** ** A program logic for runs

    [Answers] are assumptions on what the collaborators answer; [wpt] is the
    weakest precondition of a program for a postcondition on the trace and the
    result. *)
Definition Answers : Type := forall R, Call R -> PyExc + R -> Prop.

Definition obeys {S} (o : Oracle S) (Rr : Answers) : Prop :=
  forall R (c : Call R) (s : S), Rr R c (fst (respond o c s)).

Definition any_answer : Answers := fun _ _ _ => True.

Fixpoint wpt {A} (Rr : Answers) (p : Prog A)
    (Q : list Event -> PyExc + A -> Prop) : Prop :=
  match p with
  | Ret a => Q [] (inr a)
  | Raise e => Q [] (inl e)
  | Vis c k => forall r, Rr _ c r -> wpt Rr (k r) (fun tr res => Q (Ev c :: tr) res)
  end.

(** Postcondition: every call made satisfies [Pc]. *)
Definition all_calls (Pc : Event -> Prop) {A} : list Event -> PyExc + A -> Prop :=
  fun tr _ => Forall Pc tr.

(** Postcondition on what a projection of the trace shows. *)
Definition via {X A} (proj : Event -> list X)
    (Qp : list X -> PyExc + A -> Prop) : list Event -> PyExc + A -> Prop :=
  fun tr res => Qp (flat_map proj tr) res.

(** A call that the projection does not show. *)
Definition silent {X} (proj : Event -> list X) (ev : Event) : Prop := proj ev = [].

(** ** Collaborators that answer by pure functions *)

Record Scenario : Type := {
  sc_value : Dict -> pystr -> Value -> Value;      (* safe_get_value *)
  sc_description : Value -> pystr;                 (* get_wind_description_swedish *)
  sc_direction : Value -> pystr * pystr;           (* get_wind_direction_info *)
  sc_system_icon : pystr -> Z * Z -> option Icon;  (* get_system_icon *)
  sc_wind_icon : pystr -> Z * Z -> option Icon;    (* get_wind_icon *)
  sc_fonts : pystr -> option Font;                 (* the dict self.fonts *)
  sc_textbbox : pystr -> option Font -> BBox;      (* draw.textbbox((0, 0), ...) *)
  sc_text_bounds : pystr -> option Font -> Z * Z;  (* get_text_bounds *)
  sc_fallback : bool;                              (* render_fallback_content *)
  sc_attribute : pystr -> Value                    (* the attributes of self *)
}.

Definition answer (sc : Scenario) {R} (c : Call R) : R :=
  match c in Call R return R with
  | logger_info _ => tt
  | logger_warning _ => tt
  | logger_error _ => tt
  | safe_get_value data key default _ => sc_value sc data key default
  | get_text_bounds text font => sc_text_bounds sc text font
  | draw_text_with_fallback _ _ _ _ => tt
  | paste_icon_on_canvas _ _ _ => tt
  | render_fallback_content _ _ _ _ _ => sc_fallback sc
  | get_wind_description_swedish v => sc_description sc v
  | get_wind_direction_info v => sc_direction sc v
  | get_system_icon name size => sc_system_icon sc name size
  | get_wind_icon code size => sc_wind_icon sc code size
  | fonts_get key default =>
    match sc_fonts sc key with Some f => Some f | None => default end
  | draw_rectangle _ _ _ _ => tt
  | draw_text _ _ _ _ => tt
  | draw_textbbox _ text font => sc_textbbox sc text font
  | change_mapping _ _ => tt
  | set_attribute _ _ => tt
  | get_attribute name => sc_attribute sc name
  end.

(** Every call answers: nothing raises. *)
Definition quiet (sc : Scenario) : Oracle unit :=
  {| respond := fun R c s => (inr (answer sc c), s) |}.

(** The calls picked by [fails] raise; the others answer. *)
Definition failing (sc : Scenario) (fails : Event -> option PyExc) : Oracle unit :=
  {| respond := fun R c s =>
       match fails (Ev c) with
       | Some e => (inl e, s)
       | None => (inr (answer sc c), s)
       end |}.

(** A world in which the two mappings and the renderer's attributes sit next
    to the drawing surface and the log.  Drawing and logging calls are recorded
    on the surface and in the log; the two mappings and the attributes are
    what they were at first with the [changes] made to them since. *)
Record World : Type := {
  weather_data_of : Dict;
  context_data_of : Dict;
  changes : list Event;
  canvas : list Event;
  log : list Event
}.

Definition record_call (ev : Event) (w : World) : World :=
  match effect_of ev with
  | Logs => {| weather_data_of := weather_data_of w;
               context_data_of := context_data_of w;
               changes := changes w;
               canvas := canvas w; log := log w ++ [ev] |}
  | Draws => {| weather_data_of := weather_data_of w;
                context_data_of := context_data_of w;
                changes := changes w;
                canvas := canvas w ++ [ev]; log := log w |}
  | Reads => w
  | Changes => {| weather_data_of := weather_data_of w;
                  context_data_of := context_data_of w;
                  changes := changes w ++ [ev];
                  canvas := canvas w; log := log w |}
  end.

Definition painting (sc : Scenario) : Oracle World :=
  {| respond := fun R c w => (inr (answer sc c), record_call (Ev c) w) |}.

(** The mappings and the attributes of the renderer in a world. *)
Definition kept (w : World) : Dict * Dict * list Event :=
  (weather_data_of w, context_data_of w, changes w).

Definition answers_of (sc : Scenario) : Answers :=
  fun R c r => r = inr (answer sc c).

(** [self.fonts.get(key, self.fonts.get(alt))] in a scenario. *)
Definition font_of (sc : Scenario) (key alt : pystr) : option Font :=
  answer sc (fonts_get key (answer sc (fonts_get alt None))).

(** The lines [wrap2_ellips] returns when the text is measured by the
    scenario. *)
Definition wrapped (sc : Scenario) (text : pystr) (font : option Font)
    (max_w max_lines : Z) : list pystr :=
  match result (run (quiet sc) (wrap2_ellips text font max_w max_lines) tt) with
  | inr lines => lines
  | inl _ => []
  end.

(** The first of the codes for which the scenario has a wind icon, and the
    codes looked up until then. *)
Fixpoint first_icon (sc : Scenario) (codes : list pystr) (size : Z * Z)
  : option (pystr * Icon) :=
  match codes with
  | [] => None
  | code :: codes' =>
    match sc_wind_icon sc code size with
    | Some icon => Some (code, icon)
    | None => first_icon sc codes' size
    end
  end.

Fixpoint looked_up (sc : Scenario) (codes : list pystr) (size : Z * Z)
  : list pystr :=
  match codes with
  | [] => []
  | code :: codes' =>
    match sc_wind_icon sc code size with
    | Some _ => [code]
    | None => code :: looked_up sc codes' size
    end
  end.

(** The icons pasted, with their top-left corners. *)
Definition paste_of (ev : Event) : list (Icon * Z * Z) :=
  match ev with
  | Ev c =>
    match c with
    | paste_icon_on_canvas icon x y => [(icon, x, y)]
    | _ => []
    end
  end.

Definition pastes (tr : list Event) : list (Icon * Z * Z) := flat_map paste_of tr.

(** The texts drawn through [draw_text_with_fallback]: anchor, string, font. *)
Definition text_draw_of (ev : Event) : list ((Z * Z) * pystr * option Font) :=
  match ev with
  | Ev c =>
    match c with
    | draw_text_with_fallback xy text font _ => [(xy, text, font)]
    | _ => []
    end
  end.

Definition text_draws (tr : list Event) : list ((Z * Z) * pystr * option Font) :=
  flat_map text_draw_of tr.

(** Where a text drawn ends on the right: the x of its anchor plus the width
    [draw.textbbox] measures for it. *)
Definition right_edge (sc : Scenario) (d : (Z * Z) * pystr * option Font) : Z :=
  fst (fst (fst d)) + bbox_width (sc_textbbox sc (snd (fst d)) (snd d)).

(** The informational log records of a trace. *)
Definition info_of (ev : Event) : list Msg :=
  match ev with
  | Ev c =>
    match c with
    | logger_info m => [m]
    | _ => []
    end
  end.

(** ** Assumptions on text measurement *)

(** Every measured width lies in [0, wmax]. *)
Definition widths_within (wmax : Z) : Answers :=
  fun R c r =>
    match c in Call R, r return Prop with
    | draw_textbbox _ _ _, inr b => 0 <= bb2 b - bb0 b <= wmax
    | get_text_bounds _ _, inr b => 0 <= fst b <= wmax
    | _, _ => True
    end.

(** Every measured height lies in [0, hmax]. *)
Definition heights_within (hmax : Z) : Answers :=
  fun R c r =>
    match c in Call R, r return Prop with
    | draw_textbbox _ _ _, inr b => 0 <= bb3 b - bb1 b <= hmax
    | _, _ => True
    end.

Definition measures_within (wmax hmax : Z) : Answers :=
  fun R c r => widths_within wmax R c r /\ heights_within hmax R c r.

(** A line fits when it measures at most [max_w]. *)
Definition fits (m : pystr -> option Font -> BBox) (font : option Font)
    (max_w : Z) (line : pystr) : Prop :=
  bbox_width (m line font) <= max_w.

(** A line packed with the rest of the words: a stem, with the ellipsis or
    whole, such that the stem with the ellipsis fits or the stem is down to
    three code points. *)
Definition packed (m : pystr -> option Font -> BBox) (font : option Font)
    (max_w : Z) (line : pystr) : Prop :=
  exists stem,
    (line = stem ++ ellipsis \/ line = stem) /\
    (fits m font max_w (stem ++ ellipsis) \/ len stem <= 3).

(** [draw.textbbox] never raises. *)
Definition textbbox_returns : Answers :=
  fun R c r =>
    match c in Call R, r return Prop with
    | draw_textbbox _ _ _, inl _ => False
    | _, _ => True
    end.

(** [draw.textbbox((0, 0), text, font)] is the function [m] of the text and
    the font. *)
Definition measured_by (m : pystr -> option Font -> BBox) : Answers :=
  fun R c r =>
    match c in Call R, r return Prop with
    | draw_textbbox _ text font, r => r = inr (m text font)
    | _, _ => True
    end.

End Observations.

(** ** A concrete platform and concrete collaborators

    Wind values are held in tenths; a mapping is an association list; fonts and
    icons are named by their keys. *)

Definition format_tenths (v : Z) : pystr :=
  py (NilZero.string_of_int (Z.to_int (v / 10))) ++ py "."
  ++ py (NilZero.string_of_int (Z.to_int (v mod 10))).

Definition ascii_upper (s : pystr) : pystr :=
  map (fun c => if ((97 <=? c) && (c <=? 122))%N then (c - 32)%N else c) s.

Definition ascii_lower (s : pystr) : pystr :=
  map (fun c => if ((65 <=? c) && (c <=? 90))%N then (c + 32)%N else c) s.

Definition demo : Platform :=
  {| Value := Z; Font := pystr; Icon := pystr; Dict := list (pystr * Z);
     zero := 0; format_1f := format_tenths;
     upper := ascii_upper; lower := ascii_lower |}.

#[local] Existing Instance demo.

Definition lookup (data : list (pystr * Z)) (key : pystr) (default : Z) : Z :=
  match find (fun kv => if list_eq_dec N.eq_dec (fst kv) key then true else false) data with
  | Some kv => snd kv
  | None => default
  end.

Definition demo_weather : list (pystr * Z) :=
  [(py "wind_speed", 48); (py "wind_direction", 2250)].

Definition demo_context : list (pystr * Z) := [].

(** A moderate breeze from the south-west; every glyph of every font is 8
    pixels wide and 20 pixels high. *)
Definition breeze : @Scenario demo :=
  {| sc_value := lookup;
     sc_description := fun _ => py "Måttlig vind";
     sc_direction := fun _ => (py "SV", py "sw");
     sc_system_icon := fun name _ => Some name;
     sc_wind_icon := fun code _ => Some code;
     sc_fonts := fun key => Some key;
     sc_textbbox := fun text _ => mkBBox 0 0 (8 * len text) 20;
     sc_text_bounds := fun text _ => (8 * len text, 20);
     sc_fallback := true;
     sc_attribute := fun _ => 0 |}.

Definition demo_world : @World demo :=
  {| weather_data_of := demo_weather; context_data_of := demo_context;
     changes := []; canvas := []; log := [] |}.

(** The same collaborators around a renderer whose attributes hold 7.0. *)
Definition breeze_again : @Scenario demo :=
  {| sc_value := sc_value breeze;
     sc_description := sc_description breeze;
     sc_direction := sc_direction breeze;
     sc_system_icon := sc_system_icon breeze;
     sc_wind_icon := sc_wind_icon breeze;
     sc_fonts := sc_fonts breeze;
     sc_textbbox := sc_textbbox breeze;
     sc_text_bounds := sc_text_bounds breeze;
     sc_fallback := sc_fallback breeze;
     sc_attribute := fun _ => 70 |}.

(** The user interrupts the program while the renderer logs. *)
Definition interrupted (ev : @Event demo) : option PyExc :=
  match ev with
  | Ev c =>
    match c with
    | logger_info _ => Some (BaseExc "KeyboardInterrupt")
    | _ => None
    end
  end.

(** The drawing surface is missing: every call that paints raises. *)
Definition broken_surface (ev : @Event demo) : option PyExc :=
  if is_draw ev then Some (Exc "AttributeError") else None.

(** No text is wider than 172 pixels; the font 'large_main' is [h_large]
    pixels high and the others 20. *)
Definition capped (h_large : Z) : @Scenario demo :=
  {| sc_value := lookup;
     sc_description := fun _ => py "Måttlig vind";
     sc_direction := fun _ => (py "SV", py "sw");
     sc_system_icon := fun name _ => Some name;
     sc_wind_icon := fun code _ => Some code;
     sc_fonts := fun key => Some key;
     sc_textbbox := fun text font =>
       mkBBox 0 0 (Z.min (8 * len text) 172)
              (match font with
               | Some f =>
                 if list_eq_dec N.eq_dec f (py "large_main") then h_large else 20
               | None => 20
               end);
     sc_text_bounds := fun text _ => (Z.min (8 * len text) 172, 20);
     sc_fallback := true;
     sc_attribute := fun _ => 0 |}.

Definition modest : @Scenario demo := capped 40.
Definition tall : @Scenario demo := capped 145.

(** * Properties *)

(** ** The program logic *)

Section LogicFacts.
Context {P : Platform}.

(** Consequence: a weaker postcondition. *)
Lemma wpt_mono {A} (Rr : Answers) (p : Prog A) (Q Q' : list Event -> PyExc + A -> Prop) :
  (forall tr res, Q tr res -> Q' tr res) ->
  wpt Rr p Q -> wpt Rr p Q'.
Proof.
  revert Q Q'. induction p as [a | e | R c k IH]; intros Q Q' HQ; simpl; auto.
  intros Hk r Hr. eapply IH; [| apply Hk, Hr].
  intros tr res. apply HQ.
Qed.

(** Sequencing. *)
Lemma wpt_bind {A B} (Rr : Answers) (m : Prog A) (f : A -> Prog B)
    (Q : list Event -> PyExc + B -> Prop) :
  wpt Rr m (fun tr1 r =>
    match r with
    | inr a => wpt Rr (f a) (fun tr2 res => Q (tr1 ++ tr2) res)
    | inl e => Q tr1 (inl e)
    end) ->
  wpt Rr (bind m f) Q.
Proof.
  revert Q. induction m as [a | e | R c k IH]; intros Q; simpl.
  - intros H. eapply wpt_mono; [| exact H]. auto.
  - auto.
  - intros Hk r Hr. apply IH.
    eapply wpt_mono; [| apply Hk, Hr].
    intros tr1 [e | a]; simpl; auto.
Qed.

(** [try ... except Exception]. *)
Lemma wpt_try {A} (Rr : Answers) (b : Prog A) (h : PyExc -> Prog A)
    (Q : list Event -> PyExc + A -> Prop) :
  wpt Rr b (fun tr1 r =>
    match r with
    | inr a => Q tr1 (inr a)
    | inl e =>
      if is_Exception e
      then wpt Rr (h e) (fun tr2 res => Q (tr1 ++ tr2) res)
      else Q tr1 (inl e)
    end) ->
  wpt Rr (try_except_Exception b h) Q.
Proof.
  revert Q. induction b as [a | e | R c k IH]; intros Q; simpl.
  - auto.
  - destruct (is_Exception e); auto.
  - intros Hk r Hr. apply IH.
    eapply wpt_mono; [| apply Hk, Hr].
    intros tr1 [e | a]; simpl; auto.
Qed.

(** Adequacy: what [wpt] promises holds of every run against collaborators
    that obey the assumptions. *)
Lemma wpt_sound {A S} (Rr : Answers) (o : Oracle S) (p : Prog A)
    (Q : list Event -> PyExc + A -> Prop) (s : S) :
  obeys o Rr -> wpt Rr p Q ->
  Q (trace (run o p s)) (result (run o p s)).
Proof.
  intros Ho. revert Q s.
  induction p as [a | e | R c k IH]; intros Q s; simpl; auto.
  intros Hk. apply (IH _ (fun tr res => Q (Ev c :: tr) res)).
  apply Hk, Ho.
Qed.

Lemma obeys_any {S} (o : Oracle S) : obeys o any_answer.
Proof. intros R c s. exact I. Qed.

Lemma quiet_obeys (sc : Scenario) : obeys (quiet sc) (answers_of sc).
Proof. intros R c s. reflexivity. Qed.

(** Runs of a sequence and of a [try]. *)
Lemma run_bind {A B S} (o : Oracle S) (m : Prog A) (f : A -> Prog B) (s : S) :
  run o (bind m f) s =
  match result (run o m s) with
  | inr a =>
    let out := run o (f a) (final (run o m s)) in
    {| result := result out;
       trace := trace (run o m s) ++ trace out;
       final := final out |}
  | inl e =>
    {| result := inl e; trace := trace (run o m s); final := final (run o m s) |}
  end.
Proof.
  revert s. induction m as [a | e | R c k IH]; intros s; simpl.
  - destruct (run o (f a) s); reflexivity.
  - reflexivity.
  - rewrite IH. destruct (result (run o (k _) _)); reflexivity.
Qed.

Lemma run_try {A S} (o : Oracle S) (b : Prog A) (h : PyExc -> Prog A) (s : S) :
  run o (try_except_Exception b h) s =
  match result (run o b s) with
  | inr a => run o b s
  | inl e =>
    if is_Exception e then
      let out := run o (h e) (final (run o b s)) in
      {| result := result out;
         trace := trace (run o b s) ++ trace out;
         final := final out |}
    else run o b s
  end.
Proof.
  revert s. induction b as [a | e | R c k IH]; intros s; simpl.
  - reflexivity.
  - destruct (is_Exception e); [| reflexivity].
    destruct (run o (h e) s); reflexivity.
  - rewrite IH. destruct (result (run o (k _) _)) as [e | a] eqn:E.
    + destruct (is_Exception e); [reflexivity |].
      rewrite E. reflexivity.
    + rewrite E. reflexivity.
Qed.

End LogicFacts.

(** ** Symbolic execution of a renderer *)

Section Execution.
Context {P : Platform}.

Lemma wpt_any {A} (Rr : Answers) (p : Prog A) (Q : list Event -> PyExc + A -> Prop) :
  (forall tr res, Q tr res) -> wpt Rr p Q.
Proof.
  revert Q. induction p as [a | e | R c k IH]; intros Q HQ; simpl; auto.
Qed.

End Execution.

Ltac wpt_case m :=
  match m with
  | match ?x with Some _ => _ | None => _ end => destruct x
  | match ?x with pair _ _ => _ end => destruct x
  | if ?b then _ else _ => destruct b eqn:?
  | paste_if ?i _ _ => destruct i; cbn [paste_if]
  end.

(** One step: at a call, both a raised exception and an answer are followed;
    [loop] proves a specification of a loop met on the way. *)
Ltac wpt_step loop :=
  match goal with
  | |- wpt _ (Vis _ _) _ => cbn [wpt]; intros [?e | ?a] ?Hr
  | |- wpt _ (Ret _) _ => cbn [wpt]
  | |- wpt _ (Raise _) _ => cbn [wpt]
  | |- wpt _ (bind ?m _) _ =>
      first [ progress cbn [bind call paste_if fonts_get2 text_width text_height]
            | wpt_case m
            | apply wpt_bind; eapply wpt_mono; [| loop];
              cbv beta; intros ?tr [?e | ?a] ?Hl ]
  | |- wpt _ ?m _ => wpt_case m
  end.

Ltac unfold_body :=
  cbv [body body_layout_fix_0815 body_layout_fix_0817 body_text_bounds_fix
       body_clean_final].

(** ** C10: the required data sources *)

(** C10. In all four versions [get_required_data_sources] returns the
    one-element list ['smhi'], whatever the renderer object it is called on, and
    the four implementations are equal. *)
Theorem get_required_data_sources_smhi :
  (forall (v : Version) (Self : Type) (self : Self),
      get_required_data_sources v self = [py "smhi"]) /\
  (forall (v1 v2 : Version) (Self1 Self2 : Type) (self1 : Self1) (self2 : Self2),
      get_required_data_sources v1 self1 = get_required_data_sources v2 self2) /\
  (forall (Self : Type) (self : Self),
      get_required_data_sources_layout_fix_0815 self
      = get_required_data_sources_layout_fix_0817 self /\
      get_required_data_sources_layout_fix_0817 self
      = get_required_data_sources_text_bounds_fix self /\
      get_required_data_sources_text_bounds_fix self
      = get_required_data_sources_clean_final self).
Proof.
  split; [| split].
  - intros v Self self. destruct v; reflexivity.
  - intros v1 v2 Self1 Self2 self1 self2. destruct v1, v2; reflexivity.
  - intros Self self. repeat split.
Qed.

(** ** C1: the blanket [except Exception] *)

Section Exceptions.
Context {P : Platform}.

(** The body of the [try] returns nothing but [True]. *)
Lemma body_returns_True (v : Version) (x y width height : Z) (wd cd : Dict) :
  wpt any_answer (body v x y width height wd cd)
      (fun _ res => match res with inr b => b = true | inl _ => True end).
Proof.
  destruct v; unfold_body.
  all: repeat wpt_step ltac:(apply wpt_any with (Q := fun _ _ => True);
                             exact (fun _ _ => I)).
  all: auto.
Qed.

(** The run of the [except] block. *)
Lemma run_on_exception {S} (o : Oracle S) (v : Version) (x y width height : Z)
    (e : PyExc) (s : S) :
  let h := run o (on_exception v x y width height e) s in
  let error := logger_error (MsgRenderingFailed v e) in
  let fallback := render_fallback_content x y width height placeholder in
  match fst (respond o error s) with
  | inr _ =>
    result h = fst (respond o fallback (snd (respond o error s))) /\
    trace h = [Ev error; Ev fallback]
  | inl e' => result h = inl e' /\ trace h = [Ev error]
  end.
Proof.
  intros h error fallback. subst h. unfold on_exception.
  cbn [bind call run result trace].
  fold error.
  destruct (fst (respond o error s)) as [e' | u]; cbn [bind call run result trace].
  - split; reflexivity.
  - fold fallback.
    destruct (fst (respond o fallback (snd (respond o error s))));
      cbn [bind call run result trace]; split; reflexivity.
Qed.

(** C1, as the code has it.  When the body of the [try] completes, [render]
    returns [True] and has made the calls of the body only.  When the body
    raises an instance of [Exception], [render] logs the error and calls
    [render_fallback_content] on the same region with the placeholder text: its
    result is the result of that call, unless the logger raises first.  An
    exception that is not an instance of [Exception] leaves [render]. *)
Theorem render_exception_handling {S} (o : Oracle S) (s : S)
    (v : Version) (x y width height : Z) (wd cd : Dict) :
  let b := run o (body v x y width height wd cd) s in
  let r := run o (render v x y width height wd cd) s in
  let fallback := render_fallback_content x y width height
                    (py "Wind-data ej tillgänglig") in
  match result b with
  | inr ok =>
    ok = true /\ result r = inr true /\ trace r = trace b
  | inl e =>
    if is_Exception e then
      let logged := respond o (logger_error (MsgRenderingFailed v e)) (final b) in
      match fst logged with
      | inr _ =>
        result r = fst (respond o fallback (snd logged)) /\
        trace r = trace b ++ [Ev (logger_error (MsgRenderingFailed v e)); Ev fallback]
      | inl e' =>
        result r = inl e' /\
        trace r = trace b ++ [Ev (logger_error (MsgRenderingFailed v e))]
      end
    else result r = inl e /\ trace r = trace b
  end.
Proof.
  intros b r fallback.
  pose proof (wpt_sound any_answer o _ _ s (obeys_any o)
                (body_returns_True v x y width height wd cd)) as Hb.
  cbv beta in Hb.
  assert (Hr : r = run o (try_except_Exception
                            (body v x y width height wd cd)
                            (on_exception v x y width height)) s)
    by reflexivity.
  rewrite run_try in Hr. fold b in Hr, Hb. clearbody b.
  destruct (result b) as [e | ok] eqn:E.
  - destruct (is_Exception e).
    + pose proof (run_on_exception o v x y width height e (final b)) as Hh.
      cbv zeta in Hh |- *. fold fallback in Hh.
      destruct (fst (respond o (logger_error (MsgRenderingFailed v e)) (final b)));
        destruct Hh as [Hh1 Hh2]; rewrite Hr; cbn [result trace];
        rewrite Hh1, Hh2; split; reflexivity.
    + rewrite Hr, E. split; reflexivity.
  - subst ok. rewrite Hr, E. repeat split.
Qed.

End Exceptions.

(** C1 as stated fails: an exception that is not an instance of [Exception]
    passes through the [except Exception] clause, and so does an exception
    raised by [render_fallback_content] itself. *)
Lemma render_propagates :
  result (run (failing breeze interrupted)
              (render layout_fix_0815 0 0 240 200 demo_weather demo_context) tt)
  = inl (BaseExc "KeyboardInterrupt") /\
  result (run (failing breeze broken_surface)
              (render clean_final 0 0 240 200 demo_weather demo_context) tt)
  = inl (Exc "AttributeError").
Proof. split; vm_compute; reflexivity. Qed.

(** ** Python strings *)

Section Strings.

Lemma space_is : space = [32%N].
Proof. reflexivity. Qed.

Lemma ellipsis_is : ellipsis = [8230%N].
Proof. reflexivity. Qed.

Lemma truthy_nonempty (s : pystr) : truthy s = true <-> s <> [].
Proof. destruct s; simpl; split; congruence. Qed.

Lemma word_truthy (w : pystr) : word w -> truthy w = true.
Proof. intros [H _]. apply truthy_nonempty, H. Qed.

Lemma split_from_words (s cur : pystr) :
  Forall (fun c => isspace c = false) cur ->
  Forall word (split_from s cur).
Proof.
  revert cur. induction s as [| c s IH]; intros cur Hcur; simpl.
  - destruct cur as [| c0 cur]; simpl; constructor; [| constructor].
    split; [discriminate | exact Hcur].
  - destruct (isspace c) eqn:Ec.
    + destruct cur as [| c0 cur]; simpl.
      * apply IH. constructor.
      * constructor; [split; [discriminate | exact Hcur] |].
        apply IH. constructor.
    + apply IH. apply Forall_app. split; [exact Hcur |].
      constructor; [exact Ec | constructor].
Qed.

Lemma split_words (text : pystr) : Forall word (split text).
Proof. apply split_from_words. constructor. Qed.

Lemma lstrip_head (c : char) (s : pystr) :
  isspace c = false -> lstrip (c :: s) = c :: s.
Proof. intros H. simpl. rewrite H. reflexivity. Qed.

Lemma rstrip_last (s : pystr) (c : char) :
  isspace c = false -> rstrip (s ++ [c]) = s ++ [c].
Proof.
  intros H. unfold rstrip. rewrite rev_app_distr. simpl. rewrite H.
  simpl. rewrite rev_involutive. reflexivity.
Qed.

Lemma word_head (w : pystr) :
  word w -> exists c s, w = c :: s /\ isspace c = false.
Proof.
  intros [Hne Hall]. destruct w as [| c s]; [congruence |].
  exists c, s. split; [reflexivity |]. inversion Hall; assumption.
Qed.

Lemma word_last (w : pystr) :
  word w -> exists s c, w = s ++ [c] /\ isspace c = false.
Proof.
  intros [Hne Hall]. destruct (exists_last Hne) as [s [c Hw]].
  exists s, c. split; [exact Hw |].
  subst w. apply Forall_app in Hall. destruct Hall as [_ Hc].
  inversion Hc; assumption.
Qed.

(** [(" " + w).strip()] is [w]. *)
Lemma strip_space_word (w : pystr) : word w -> strip ([] ++ space ++ w) = w.
Proof.
  intros Hw. unfold strip. rewrite space_is. simpl.
  destruct (word_head w Hw) as [c [s [Hc Hs]]].
  destruct (word_last w Hw) as [s' [c' [Hc' Hs']]].
  rewrite Hc at 1. rewrite (lstrip_head _ _ Hs). rewrite <- Hc.
  rewrite Hc'. apply rstrip_last, Hs'.
Qed.

(** [(cur + " " + w).strip()] is [cur + " " + w] when [cur] starts with a
    visible code point. *)
Lemma strip_joined (cur w : pystr) (c : char) (s : pystr) :
  cur = c :: s -> isspace c = false -> word w ->
  strip (cur ++ space ++ w) = cur ++ space ++ w.
Proof.
  intros Hcur Hc Hw. unfold strip. subst cur.
  rewrite <- app_comm_cons. rewrite (lstrip_head _ _ Hc).
  destruct (word_last w Hw) as [s' [c' [Hc' Hs']]]. subst w.
  rewrite app_comm_cons. rewrite !app_assoc. apply rstrip_last, Hs'.
Qed.

Lemma lstrip_visible (s : pystr) :
  Exists (fun c => isspace c = false) s -> lstrip s <> [] /\
  Exists (fun c => isspace c = false) (lstrip s).
Proof.
  induction s as [| c s IH]; intros H.
  - inversion H.
  - simpl. destruct (isspace c) eqn:Ec.
    + inversion H; subst; [congruence | auto].
    + split; [discriminate | exact H].
Qed.

(** A string with a visible code point is not stripped to nothing. *)
Lemma strip_visible (s : pystr) :
  Exists (fun c => isspace c = false) s -> truthy (strip s) = true.
Proof.
  intros H. apply truthy_nonempty. unfold strip, rstrip.
  destruct (lstrip_visible s H) as [_ H1].
  assert (H2 : Exists (fun c => isspace c = false) (rev (lstrip s))).
  { apply Exists_exists in H1. destruct H1 as [c [Hin Hc]].
    apply Exists_exists. exists c. split; [| exact Hc].
    apply in_rev. rewrite rev_involutive. exact Hin. }
  destruct (lstrip_visible _ H2) as [Hne _].
  intros Hr. apply Hne.
  apply (f_equal (@rev char)) in Hr. rewrite rev_involutive in Hr. exact Hr.
Qed.

Lemma strip_with_word (cur w : pystr) :
  word w -> truthy (strip (cur ++ space ++ w)) = true.
Proof.
  intros Hw. apply strip_visible.
  destruct (word_head w Hw) as [c [s [Hc Hs]]]. subst w.
  apply Exists_app. right. apply Exists_app. right.
  constructor. exact Hs.
Qed.

Lemma join_snoc (sep : pystr) (l : list pystr) (w : pystr) :
  l <> [] -> join sep (l ++ [w]) = join sep l ++ sep ++ w.
Proof.
  induction l as [| a l IH]; intros Hne; [congruence |].
  destruct l as [| b l].
  - reflexivity.
  - change (join sep ((a :: b :: l) ++ [w]))
      with (a ++ sep ++ join sep ((b :: l) ++ [w])).
    rewrite IH by discriminate.
    change (join sep (a :: b :: l)) with (a ++ sep ++ join sep (b :: l)).
    rewrite <- !app_assoc. reflexivity.
Qed.

Lemma join_prefix (sep : pystr) (l1 l2 : list pystr) :
  l1 <> [] -> exists t, join sep (l1 ++ l2) = join sep l1 ++ t.
Proof.
  induction l1 as [| a l1 IH]; intros Hne; [congruence |].
  destruct l1 as [| b l1].
  - destruct l2 as [| c l2].
    + exists []. simpl. rewrite app_nil_r. reflexivity.
    + exists (sep ++ join sep (c :: l2)). reflexivity.
  - destruct IH as [t Ht]; [discriminate |].
    exists t.
    change (join sep ((a :: b :: l1) ++ l2))
      with (a ++ sep ++ join sep ((b :: l1) ++ l2)).
    rewrite Ht.
    change (join sep (a :: b :: l1)) with (a ++ sep ++ join sep (b :: l1)).
    rewrite <- !app_assoc. reflexivity.
Qed.

(** The join of words starts with a visible code point. *)
Lemma join_words_head (l : list pystr) :
  l <> [] -> Forall word l ->
  exists c s, join space l = c :: s /\ isspace c = false.
Proof.
  intros Hne Hall. destruct l as [| a l]; [congruence |].
  inversion Hall as [| ? ? Ha _]; subst.
  destruct (word_head a Ha) as [c [s [Hc Hs]]]. subst a.
  destruct l as [| b l].
  - exists c, s. auto.
  - exists c, (s ++ space ++ join space (b :: l)). auto.
Qed.

Lemma slice_to_length {A} (l : list A) (n : Z) :
  0 <= n -> len (slice_to l n) = Z.min n (len l).
Proof.
  intros Hn. unfold slice_to, len.
  destruct (0 <=? n) eqn:E; [| lia].
  rewrite length_firstn. lia.
Qed.

Lemma slice_to_all {A} (l : list A) (n : Z) :
  len l <= n -> slice_to l n = l.
Proof.
  intros H. unfold slice_to, len in *.
  destruct (0 <=? n) eqn:E; [| lia].
  apply firstn_all2. lia.
Qed.

End Strings.

(** ** C8, C9: the line-wrapping routine of the clean-final version *)

Section Wrapping.
Context {P : Platform}.

Lemma ellipsize_returns (fuel : nat) (rest : pystr) (font : option Font) (max_w : Z) :
  wpt textbbox_returns (ellipsize fuel rest font max_w)
      (fun _ res => exists r, res = inr r).
Proof.
  revert rest. induction fuel as [| fuel IH]; intros rest.
  - simpl. eauto.
  - cbn [ellipsize text_width bind call wpt]. intros [e | b] Hr; [destruct Hr |].
    cbn [bind wpt].
    destruct ((max_w <? bb2 b - bb0 b) && (3 <? len rest)).
    + eapply wpt_mono; [| apply IH]. auto.
    + simpl. eauto.
Qed.

Lemma wrap_loop_length (font : option Font) (max_w max_lines : Z)
    (words lines : list pystr) (cur : pystr) :
  1 <= max_lines -> Forall word words ->
  words <> [] \/ truthy cur = true \/ lines <> [] ->
  wpt textbbox_returns (wrap_loop font max_w max_lines words lines cur)
      (fun _ res => exists ls, res = inr ls /\ 1 <= len ls <= max_lines).
Proof.
  intros Hmax. revert lines cur.
  induction words as [| w words IH]; intros lines cur Hw Hinv.
  - cbn [wrap_loop wpt]. eexists. split; [reflexivity |].
    rewrite slice_to_length by lia.
    assert (1 <= len (if truthy cur then lines ++ [cur] else lines)).
    { destruct Hinv as [H | [H | H]]; [congruence | |].
      - rewrite H. unfold len. rewrite length_app. simpl. lia.
      - destruct (truthy cur); unfold len.
        + rewrite length_app. simpl. lia.
        + destruct lines; [congruence | simpl; lia]. }
    lia.
  - inversion Hw as [| ? ? Hw1 Hw2]; subst.
    cbn [wrap_loop text_width bind call wpt]. intros [e | b] Hr; [destruct Hr |].
    cbn [bind wpt].
    destruct (bb2 b - bb0 b <=? max_w).
    + eapply wpt_mono; [| apply IH; auto]. { auto. }
      right. left. apply strip_with_word, Hw1.
    + destruct (len (if truthy cur then lines ++ [cur] else lines) =? max_lines - 1)
        eqn:El.
      * apply wpt_bind. eapply wpt_mono; [| apply ellipsize_returns].
        cbv beta. intros tr res [r Hres]. subst res. cbn [wpt].
        eexists. split; [reflexivity |].
        apply Z.eqb_eq in El. unfold len in *. rewrite length_app. simpl. lia.
      * eapply wpt_mono; [| apply IH; auto]. { auto. }
        right. left. apply word_truthy, Hw1.
Qed.

Lemma wrap2_ellips_wpt_length (text : pystr) (font : option Font) (max_w max_lines : Z) :
  1 <= max_lines ->
  wpt textbbox_returns (wrap2_ellips text font max_w max_lines)
      (fun _ res => exists ls, res = inr ls /\ 1 <= len ls <= max_lines).
Proof.
  intros Hmax. unfold wrap2_ellips.
  pose proof (split_words text) as Hw.
  destruct (split text) as [| w words] eqn:E.
  - simpl. eexists. split; [reflexivity |]. unfold len. simpl. lia.
  - apply wrap_loop_length; auto. left. discriminate.
Qed.

(** X1 (the property of claim C8). For every text, font, maximal width and [max_lines >= 1], and whatever
    the widths measured, [wrap2_ellips] returns a list of at least one and at
    most [max_lines] lines; it returns as soon as [draw.textbbox] does. *)
Theorem wrap2_ellips_length {S} (o : Oracle S) (s : S)
    (text : pystr) (font : option Font) (max_w max_lines : Z) :
  1 <= max_lines ->
  obeys o textbbox_returns ->
  exists lines,
    result (run o (wrap2_ellips text font max_w max_lines) s) = inr lines /\
    1 <= len lines <= max_lines.
Proof.
  intros Hmax Ho.
  exact (wpt_sound textbbox_returns o _ _ s Ho
           (wrap2_ellips_wpt_length text font max_w max_lines Hmax)).
Qed.

Lemma wrap_loop_fits (m : pystr -> option Font -> BBox) (font : option Font)
    (max_w max_lines : Z) (done ws : list pystr) (cur : pystr) :
  (forall s t, bbox_width (m s font) <= bbox_width (m (s ++ t) font)) ->
  1 <= max_lines ->
  Forall word (done ++ ws) ->
  bbox_width (m (join space (done ++ ws)) font) <= max_w ->
  cur = join space done ->
  done ++ ws <> [] ->
  wpt (measured_by m) (wrap_loop font max_w max_lines ws [] cur)
      (fun _ res => res = inr [join space (done ++ ws)]).
Proof.
  intros Hmono Hmax. revert done cur.
  induction ws as [| w ws IH]; intros done cur Hw Hfit Hcur Hne.
  - rewrite app_nil_r in *. cbn [wrap_loop wpt].
    destruct (join_words_head done Hne Hw) as [c [s [Hj _]]].
    rewrite <- Hcur in Hj. rewrite Hj. cbn [truthy app].
    rewrite slice_to_all; [congruence |]. unfold len. simpl. lia.
  - cbn [wrap_loop text_width bind call wpt]. intros r Hr.
    cbn [measured_by] in Hr. subst r. cbn [bind wpt].
    assert (Hw1 : word w).
    { apply Forall_app in Hw. destruct Hw as [_ Hw]. inversion Hw; assumption. }
    assert (Htest : strip (cur ++ space ++ w) = join space (done ++ [w])).
    { destruct done as [| d done].
      - simpl in Hcur. subst cur. rewrite strip_space_word by exact Hw1.
        reflexivity.
      - assert (Hd : Forall word (d :: done)).
        { apply Forall_app in Hw. tauto. }
        destruct (join_words_head (d :: done) ltac:(discriminate) Hd)
          as [c [s [Hj Hc]]].
        rewrite <- Hcur in Hj.
        rewrite (strip_joined cur w c s Hj Hc Hw1).
        rewrite join_snoc by discriminate. congruence. }
    rewrite Htest.
    assert (Hle : (bb2 (m (join space (done ++ [w])) font)
                   - bb0 (m (join space (done ++ [w])) font) <=? max_w) = true).
    { apply Z.leb_le.
      destruct (join_prefix space (done ++ [w]) ws) as [t Ht].
      { destruct done; discriminate. }
      rewrite <- app_assoc in Ht. simpl in Ht.
      rewrite Ht in Hfit.
      specialize (Hmono (join space (done ++ [w])) t).
      unfold bbox_width in *. lia. }
    rewrite Hle.
    replace (done ++ w :: ws) with ((done ++ [w]) ++ ws)
      by (rewrite <- app_assoc; reflexivity).
    apply IH.
    + rewrite <- app_assoc. exact Hw.
    + rewrite <- app_assoc. exact Hfit.
    + reflexivity.
    + destruct done; discriminate.
Qed.

(** X2 (the property of claim C9). Let the text have at least one word, let [draw.textbbox] measure by a
    function whose width never decreases when a string is extended, and let
    the whitespace-normalized text be at most [max_w] wide.  Then
    [wrap2_ellips] returns that normalized text as its only line, without an
    ellipsis ([max_lines] being at least 1, as it is at its call and by
    default). *)
Theorem wrap2_ellips_fits {S} (o : Oracle S) (s : S)
    (m : pystr -> option Font -> BBox)
    (text : pystr) (font : option Font) (max_w max_lines : Z) :
  obeys o (measured_by m) ->
  (forall s t, bbox_width (m s font) <= bbox_width (m (s ++ t) font)) ->
  split text <> [] ->
  1 <= max_lines ->
  bbox_width (m (normalized text) font) <= max_w ->
  result (run o (wrap2_ellips text font max_w max_lines) s)
  = inr [normalized text].
Proof.
  intros Ho Hmono Hne Hmax Hfit.
  apply (wpt_sound (measured_by m) o _
           (fun _ res => res = inr [normalized text]) s Ho).
  unfold wrap2_ellips, normalized in *.
  pose proof (split_words text) as Hw.
  destruct (split text) as [| w words] eqn:E; [congruence |].
  apply (wrap_loop_fits m font max_w max_lines [] (w :: words) []); auto.
Qed.

End Wrapping.

Lemma quiet_textbbox_returns (sc : @Scenario demo) : obeys (quiet sc) textbbox_returns.
Proof. intros R c s. destruct c; exact I. Qed.

Lemma quiet_measured_by (sc : @Scenario demo) :
  obeys (quiet sc) (measured_by (sc_textbbox sc)).
Proof. intros R c s. destruct c; try exact I. reflexivity. Qed.

Lemma breeze_monotone (font : option (@Font demo)) (s t : pystr) :
  bbox_width (sc_textbbox breeze s font) <= bbox_width (sc_textbbox breeze (s ++ t) font).
Proof.
  unfold bbox_width. cbn [sc_textbbox breeze bb2 bb0]. unfold len.
  rewrite length_app. lia.
Qed.

Lemma wrap2_ellips_length_witness :
  1 <= 2 /\
  exists lines,
    result (run (quiet breeze)
                (wrap2_ellips (py "Måttlig vind") (Some (py "small_main")) 60 2) tt)
    = inr lines /\
    1 <= len lines <= 2.
Proof.
  split; [lia |].
  apply (wrap2_ellips_length (quiet breeze) tt); [lia |].
  apply quiet_textbbox_returns.
Defined.

Lemma wrap2_ellips_fits_witness :
  split (py "  Måttlig   vind ") <> [] /\
  1 <= 2 /\
  bbox_width (sc_textbbox breeze (normalized (py "  Måttlig   vind "))
                          (Some (py "small_main"))) <= 172 /\
  result (run (quiet breeze)
              (wrap2_ellips (py "  Måttlig   vind ") (Some (py "small_main")) 172 2) tt)
  = inr [py "Måttlig vind"].
Proof.
  split; [vm_compute; discriminate |].
  split; [lia |].
  split; [vm_compute; discriminate |].
  apply (wrap2_ellips_fits (quiet breeze) tt (sc_textbbox breeze)).
  - apply quiet_measured_by.
  - apply breeze_monotone.
  - vm_compute; discriminate.
  - lia.
  - vm_compute; discriminate.
Defined.

(** The routine on a description of two words: both on one line when they
    fit, one word per line when they do not, the rest cut and marked when the
    last line overflows. *)
Example wrap2_ellips_examples :
  wrapped breeze (py "Måttlig vind") None 172 2 = [py "Måttlig vind"] /\
  wrapped breeze (py "Måttlig vind") None 60 2 = [py "Måttlig"; py "vind"] /\
  wrapped breeze (py "Mycket hård vind") None 60 2 = [py "Mycket"; py "hård v…"] /\
  wrapped breeze (py "Måttlig vind") None 60 0 = [] /\
  wrapped breeze (py "   ") None 60 2 = [py "   "].
Proof. repeat split. Qed.

(** *** The fuel of [ellipsize] is enough *)

Lemma length_lstrip (s : pystr) : (List.length (lstrip s) <= List.length s)%nat.
Proof.
  induction s as [| c s IH]; simpl; [lia |].
  destruct (isspace c); simpl; lia.
Qed.

Lemma length_rstrip (s : pystr) : (List.length (rstrip s) <= List.length s)%nat.
Proof.
  unfold rstrip. rewrite length_rev.
  pose proof (length_lstrip (rev s)) as H. rewrite length_rev in H. exact H.
Qed.

Lemma length_drop_last {A} (l : list A) :
  l <> [] -> (List.length (drop_last l) < List.length l)%nat.
Proof.
  intros Hne. unfold drop_last, slice_to, len.
  change (0 <=? -1) with false. cbv iota.
  rewrite length_firstn. destruct l; [congruence |].
  cbn [List.length]. lia.
Qed.

Section Fuel.
Context {P : Platform}.

(** The [while] loop of [wrap2_ellips] never runs out of turns: any two
    supplies above the length of [rest] give the same run. *)
Lemma ellipsize_fuel {S} (o : Oracle S) (fuel1 fuel2 : nat) (rest : pystr)
    (font : option Font) (max_w : Z) (s : S) :
  (List.length rest < fuel1)%nat -> (List.length rest < fuel2)%nat ->
  run o (ellipsize fuel1 rest font max_w) s
  = run o (ellipsize fuel2 rest font max_w) s.
Proof.
  revert fuel2 rest s.
  induction fuel1 as [| fuel1 IH]; intros fuel2 rest s H1 H2; [lia |].
  destruct fuel2 as [| fuel2]; [lia |].
  cbn [ellipsize text_width bind call run].
  destruct (fst (respond o (draw_textbbox (0, 0) (rest ++ ellipsis) font) s))
    as [e | b]; cbn [bind run]; [reflexivity |].
  destruct (max_w <? bb2 b - bb0 b); cbn [andb]; [| reflexivity].
  destruct (3 <? len rest) eqn:E; [| reflexivity].
  assert (Hlt : (List.length (rstrip (drop_last rest)) < List.length rest)%nat).
  { pose proof (length_rstrip (drop_last rest)).
    assert (rest <> []) by (intros Hr; subst rest; vm_compute in E; discriminate).
    pose proof (length_drop_last rest ltac:(assumption)). lia. }
  rewrite (IH fuel2); [reflexivity | lia | lia].
Qed.

End Fuel.

(** ** C3: where the texts and icons are put *)

Section Placement.
Context {P : Platform}.

Lemma wpt_all_vis {A R} (Rr : Answers) (Pc : Event -> Prop) (c : Call R)
    (k : PyExc + R -> Prog A) :
  Pc (Ev c) ->
  (forall r, Rr _ c r -> wpt Rr (k r) (all_calls Pc)) ->
  wpt Rr (Vis c k) (all_calls Pc).
Proof.
  intros Hc Hk. cbn [wpt]. intros r Hr.
  eapply wpt_mono; [| apply Hk, Hr].
  intros tr res H. constructor; assumption.
Qed.

Lemma wpt_all_bind {A B} (Rr : Answers) (Pc : Event -> Prop) (psi : A -> Prop)
    (m : Prog A) (f : A -> Prog B) :
  wpt Rr m (fun tr res =>
              Forall Pc tr /\ match res with inr a => psi a | inl _ => True end) ->
  (forall a, psi a -> wpt Rr (f a) (all_calls Pc)) ->
  wpt Rr (bind m f) (all_calls Pc).
Proof.
  intros Hm Hf. apply wpt_bind. eapply wpt_mono; [| exact Hm].
  cbv beta. intros tr1 [e | a] [Htr Ha].
  - exact Htr.
  - eapply wpt_mono; [| apply Hf, Ha].
    intros tr2 res H. apply Forall_app. split; assumption.
Qed.

Lemma wpt_all_try {A} (Rr : Answers) (Pc : Event -> Prop)
    (b : Prog A) (h : PyExc -> Prog A) :
  wpt Rr b (all_calls Pc) ->
  (forall e, wpt Rr (h e) (all_calls Pc)) ->
  wpt Rr (try_except_Exception b h) (all_calls Pc).
Proof.
  intros Hb Hh. apply wpt_try. eapply wpt_mono; [| exact Hb].
  cbv beta. intros tr1 [e | a] Htr; [| exact Htr].
  destruct (is_Exception e); [| exact Htr].
  eapply wpt_mono; [| apply Hh].
  intros tr2 res H. apply Forall_app. split; assumption.
Qed.

Lemma wpt_all_for_enumerate {A} (Rr : Answers) (Pc : Event -> Prop)
    (body : Z -> A -> Prog unit) (l : list A) (i : Z) :
  (forall j a, i <= j < i + len l -> wpt Rr (body j a) (all_calls Pc)) ->
  wpt Rr (for_enumerate i l body) (all_calls Pc).
Proof.
  revert i. induction l as [| a l IH]; intros i Hbody.
  - constructor.
  - cbn [for_enumerate].
    apply wpt_all_bind with (psi := fun _ => True).
    + eapply wpt_mono; [| apply (Hbody i a)].
      * intros tr res H. split; [exact H | destruct res; exact I].
      * unfold len. simpl. lia.
    + intros _ _. apply IH. intros j b Hj. apply Hbody.
      unfold len in *. simpl. lia.
Qed.

Lemma on_exception_placed (Rr : Answers) (v : Version) (x y width height : Z)
    (e : PyExc) :
  wpt Rr (on_exception v x y width height e) (all_calls (placed x y width height)).
Proof.
  unfold on_exception. cbn [bind call].
  apply wpt_all_vis; [exact I |]. intros [e1 | a1] _; cbn [bind]; [constructor |].
  apply wpt_all_vis; [exact I |]. intros [e2 | a2] _; constructor.
Qed.

End Placement.

Ltac use_measures :=
  repeat match goal with
         | H : measures_within _ _ _ _ _ |- _ =>
           cbv [measures_within widths_within heights_within] in H;
           destruct H as [? ?]
         | H : True |- _ => clear H
         end.

Ltac placed_here :=
  first [ exact I
        | use_measures; unfold placed, placement, within; cbn [fst snd];
          Z.to_euclidean_division_equations; lia ].

(** One step towards [all_calls (placed ...)]; [loop] handles the loops. *)
Ltac all_step loop :=
  match goal with
  | |- wpt _ (Vis _ _) (all_calls _) =>
      apply wpt_all_vis; [placed_here | intros [?e | ?a] ?Hr]
  | |- wpt _ (Ret _) _ => constructor
  | |- wpt _ (Raise _) _ => constructor
  | |- wpt _ (bind ?m _) _ =>
      first [ progress cbn [bind call paste_if fonts_get2 text_width text_height]
            | wpt_case m
            | loop ]
  | |- wpt _ ?m _ => wpt_case m
  end.

Section PlacementOld.
Context {P : Platform}.

Lemma body_placed_straight (v : Version) (x y width height : Z) (wd cd : Dict) :
  212 <= width -> 200 <= height ->
  v <> clean_final ->
  wpt (measures_within 172 144) (body v x y width height wd cd)
      (all_calls (placed x y width height)).
Proof.
  intros Hwidth Hheight Hv. destruct v; [| | | congruence]; unfold_body.
  all: repeat all_step fail.
Qed.
End PlacementOld.

Section Stepping.
Context {P : Platform}.

Lemma wpt_assoc {A B C} (Rr : Answers) (m : Prog A) (f : A -> Prog B)
    (g : B -> Prog C) (Q : list Event -> PyExc + C -> Prop) :
  wpt Rr (bind m (fun a => bind (f a) g)) Q ->
  wpt Rr (bind (bind m f) g) Q.
Proof.
  revert Q. induction m as [a | e | R c k IH]; intros Q; simpl; auto.
Qed.

Lemma wpt_all_call {A R} (Rr : Answers) (Pc : Event -> Prop) (c : Call R)
    (f : R -> Prog A) :
  Pc (Ev c) ->
  (forall a, Rr _ c (inr a) -> wpt Rr (f a) (all_calls Pc)) ->
  wpt Rr (bind (call c) f) (all_calls Pc).
Proof.
  intros Hc Hf. cbn [bind call]. apply wpt_all_vis; [exact Hc |].
  intros [e | a] Hr; cbn [bind].
  - constructor.
  - apply Hf, Hr.
Qed.

Lemma wpt_all_call_last {R} (Rr : Answers) (Pc : Event -> Prop) (c : Call R) :
  Pc (Ev c) -> wpt Rr (call c) (all_calls Pc).
Proof.
  intros Hc. apply wpt_all_vis; [exact Hc |].
  intros [e | a] _; constructor.
Qed.

End Stepping.

(** One step towards [all_calls (placed ...)] by the rules above; [loop]
    handles the loops. *)
Ltac all_go loop :=
  match goal with
  | |- wpt _ (Ret _) _ => constructor
  | |- wpt _ (call _) _ => apply wpt_all_call_last; placed_here
  | |- wpt _ (bind ?m _) _ =>
    match m with
    | call _ => apply wpt_all_call; [placed_here | intros ?a ?Hr; cbv beta]
    | bind _ _ => apply wpt_assoc
    | Ret _ => cbn [bind]; cbv beta
    | fonts_get2 _ _ => unfold fonts_get2 at 1
    | text_width _ _ => unfold text_width at 1
    | text_height _ _ => unfold text_height at 1
    | paste_if ?i _ _ => destruct i; unfold paste_if at 1
    | match ?x with Some _ => _ | None => _ end => destruct x
    | match ?x with pair _ _ => _ end => destruct x
    | if ?b then _ else _ => destruct b eqn:?
    | _ => loop
    end
  | |- wpt _ (match ?x with pair _ _ => _ end) _ => destruct x
  | |- wpt _ (match ?x with Some _ => _ | None => _ end) _ => destruct x
  | |- wpt _ (if ?b then _ else _) _ => destruct b eqn:?
  end.

Section PlacementCleanFinal.
Context {P : Platform}.

Lemma measuring_placed (x y width height : Z) (ev : Event) :
  measuring ev -> placed x y width height ev.
Proof.
  destruct ev as [R c]. destruct c; simpl; intros H; try destruct H; exact I.
Qed.

Lemma slice_to_le {A} (l : list A) (n : Z) : len (slice_to l n) <= len l.
Proof.
  unfold slice_to, len. destruct (0 <=? n); rewrite length_firstn; lia.
Qed.

(** When no measured width exceeds [max_w], every word fits on the first
    line. *)
Lemma wrap_loop_single (Rr : Answers) (font : option Font) (max_w max_lines : Z)
    (words : list pystr) (cur : pystr) :
  (forall xy t f b, Rr _ (draw_textbbox xy t f) (inr b) -> bb2 b - bb0 b <= max_w) ->
  wpt Rr (wrap_loop font max_w max_lines words [] cur)
      (fun tr res =>
         Forall measuring tr /\
         match res with inr ls => len ls <= 1 | inl _ => True end).
Proof.
  intros Hfit. revert cur.
  induction words as [| w words IH]; intros cur.
  - cbn [wrap_loop wpt]. split; [constructor |].
    etransitivity; [apply slice_to_le |].
    destruct (truthy cur); unfold len; simpl; lia.
  - cbn [wrap_loop text_width bind call wpt]. intros [e | b] Hr; cbn [bind wpt].
    + split; [repeat constructor | exact I].
    + apply Hfit in Hr. apply Z.leb_le in Hr. rewrite Hr.
      eapply wpt_mono; [| apply IH].
      cbv beta. intros tr res [Htr Hres]. split; [| exact Hres].
      constructor; [exact I | exact Htr].
Qed.

Lemma wrap2_ellips_single (Rr : Answers) (text : pystr) (font : option Font)
    (max_w max_lines : Z) :
  (forall xy t f b, Rr _ (draw_textbbox xy t f) (inr b) -> bb2 b - bb0 b <= max_w) ->
  wpt Rr (wrap2_ellips text font max_w max_lines)
      (fun tr res =>
         Forall measuring tr /\
         match res with inr ls => len ls <= 1 | inl _ => True end).
Proof.
  intros Hfit. unfold wrap2_ellips.
  destruct (split text) as [| w words].
  - cbn [wpt]. split; [constructor |]. unfold len. simpl. lia.
  - apply wrap_loop_single, Hfit.
Qed.

Lemma try_alt_codes_placed (Rr : Answers) (x y width height : Z)
    (alt_codes : list pystr) (size : Z * Z) (cardinal_icon : option Icon) :
  wpt Rr (try_alt_codes alt_codes size cardinal_icon)
      (fun tr res =>
         Forall (placed x y width height) tr /\
         match res with inr _ => True | inl _ => True end).
Proof.
  induction alt_codes as [| alt_code alt_codes IH].
  - cbn [try_alt_codes wpt]. split; [constructor | exact I].
  - cbn [try_alt_codes bind call wpt]. intros [e | alt_icon] _; cbn [bind wpt].
    + split; [repeat constructor | exact I].
    + destruct alt_icon as [icon |].
      * cbn [bind call wpt]. intros [e | u] _; cbn [bind wpt];
          (split; [repeat constructor | exact I]).
      * eapply wpt_mono; [| apply IH].
        cbv beta. intros tr res [Htr Hres]. split; [| exact Hres].
        constructor; [exact I | exact Htr].
Qed.

Lemma body_clean_final_placed (x y width height : Z) (wd cd : Dict) :
  212 <= width -> 200 <= height ->
  wpt (measures_within 172 144) (body_clean_final x y width height wd cd)
      (all_calls (placed x y width height)).
Proof.
  intros Hwidth Hheight. unfold body_clean_final. cbv zeta.
  repeat all_go fail.
  (* the description is wrapped: one line *)
  apply wpt_all_bind with (psi := fun ls : list pystr => len ls <= 1).
  { eapply wpt_mono; [| apply wrap2_ellips_single with (max_w := 172)].
    - cbv beta. intros tr res [Htr Hres]. split; [| exact Hres].
      eapply Forall_impl; [| exact Htr]. intros ev. apply measuring_placed.
    - intros xy t f b [Hb _]. simpl in Hb. lia. }
  intros desc_lines Hlines.
  (* its lines are drawn *)
  apply wpt_all_bind with (psi := fun _ : unit => True).
  { eapply wpt_mono; [| apply wpt_all_for_enumerate].
    - cbv beta. intros tr res Htr. split; [exact Htr | destruct res; exact I].
    - intros j line Hj. assert (j = 0) by lia. subst j.
      repeat all_go fail. }
  intros _ _.
  repeat all_go ltac:(
    apply wpt_all_bind with (psi := fun _ : option Icon => True);
    [apply try_alt_codes_placed | intros ? _]).
Qed.

End PlacementCleanFinal.

Section PlacementAll.
Context {P : Platform}.

Lemma obeys_measures {S} (o : Oracle S) (wmax hmax : Z) :
  obeys o (widths_within wmax) -> obeys o (heights_within hmax) ->
  obeys o (measures_within wmax hmax).
Proof. intros Hw Hh R c s. split; [apply Hw | apply Hh]. Qed.

Lemma placedb_true (x y width height : Z) (ev : Event) :
  placed x y width height ev -> placedb x y width height ev = true.
Proof.
  unfold placed, placedb, within, withinb.
  destruct (placement ev) as [p |]; [| reflexivity].
  intros [[H1 H2] [H3 H4]].
  apply Z.leb_le in H1, H2, H3, H4. rewrite H1, H2, H3, H4. reflexivity.
Qed.

(** C3, as the code has it.  In the documented geometry (240 x 200), when
    every measured text width lies between 0 and 172 and every measured text
    height between 0 and 144, every text anchor and every icon corner of every
    version lies in the module's region, also on a run cut short by an
    exception. *)
Theorem render_placements {S} (o : Oracle S) (s : S)
    (v : Version) (x y : Z) (weather_data context_data : Dict) :
  obeys o (widths_within 172) ->
  obeys o (heights_within 144) ->
  Forall (placed x y 240 200)
         (trace (run o (render v x y 240 200 weather_data context_data) s)).
Proof.
  intros Hw Hh.
  apply (wpt_sound (measures_within 172 144) o _
           (all_calls (placed x y 240 200)) s (obeys_measures o _ _ Hw Hh)).
  unfold render. apply wpt_all_try.
  - destruct v.
    + apply (body_placed_straight layout_fix_0815); solve [lia | discriminate].
    + apply (body_placed_straight layout_fix_0817); solve [lia | discriminate].
    + apply (body_placed_straight text_bounds_fix); solve [lia | discriminate].
    + apply body_clean_final_placed; lia.
  - intros e. apply on_exception_placed.
Qed.

(** X6. In a module at least 212 pixels wide and 200 pixels high, when every
    measured text width lies between 0 and 172 and every measured text height
    between 0 and 144, every text anchor and every icon corner of every
    version lies in the module's region, also on a run that an exception cuts
    short. *)
Theorem render_placements_any_size {S} (o : Oracle S) (s : S)
    (v : Version) (x y width height : Z) (weather_data context_data : Dict) :
  212 <= width -> 200 <= height ->
  obeys o (widths_within 172) ->
  obeys o (heights_within 144) ->
  Forall (placed x y width height)
         (trace (run o (render v x y width height weather_data context_data) s)).
Proof.
  intros Hwidth Hheight Hw Hh.
  apply (wpt_sound (measures_within 172 144) o _
           (all_calls (placed x y width height)) s (obeys_measures o _ _ Hw Hh)).
  unfold render. apply wpt_all_try.
  - destruct v.
    + apply (body_placed_straight layout_fix_0815); solve [lia | discriminate].
    + apply (body_placed_straight layout_fix_0817); solve [lia | discriminate].
    + apply (body_placed_straight text_bounds_fix); solve [lia | discriminate].
    + apply body_clean_final_placed; lia.
  - intros e. apply on_exception_placed.
Qed.

End PlacementAll.

Lemma capped_widths (h : Z) : obeys (quiet (capped h)) (widths_within 172).
Proof.
  intros R c s. destruct c; try exact I;
    cbn [quiet respond fst widths_within answer capped sc_textbbox sc_text_bounds
         bb0 bb2]; unfold len; lia.
Qed.

Lemma capped_heights (h : Z) :
  0 <= h <= 144 -> obeys (quiet (capped h)) (heights_within 144).
Proof.
  intros Hh R c s. destruct c; try exact I.
  cbn [quiet respond fst heights_within answer capped sc_textbbox bb1 bb3].
  destruct font as [f |]; [| lia].
  destruct (list_eq_dec N.eq_dec f (py "large_main")); lia.
Qed.

Lemma render_placements_any_size_witness :
  212 <= 296 /\ 200 <= 200 /\
  obeys (quiet modest) (widths_within 172) /\
  obeys (quiet modest) (heights_within 144) /\
  Forall (placed 8 8 296 200)
         (trace (run (quiet modest)
                     (render clean_final 8 8 296 200 demo_weather demo_context) tt)).
Proof.
  split; [lia |]. split; [lia |].
  split; [apply capped_widths |].
  split; [apply capped_heights; lia |].
  apply (render_placements_any_size (quiet modest) tt clean_final 8 8 296 200
                                    demo_weather demo_context).
  - lia.
  - lia.
  - apply capped_widths.
  - apply capped_heights. lia.
Defined.

Lemma render_placements_witness :
  Forall (placed 0 0 240 200)
         (trace (run (quiet modest)
                     (render clean_final 0 0 240 200 demo_weather demo_context) tt)).
Proof.
  apply (render_placements (quiet modest) tt clean_final 0 0
                           demo_weather demo_context).
  - apply capped_widths.
  - apply capped_heights. lia.
Defined.

(** C3 as stated fails: with every measured width within [0, 172] but a
    'large_main' font 145 pixels high, the clean-final version anchors the
    description at y + 201, below the region. *)
Lemma placement_outside :
  obeys (quiet tall) (widths_within 172) /\
  In (Some (20, 201))
     (map placement
          (trace (run (quiet tall)
                      (render clean_final 0 0 240 200 demo_weather demo_context) tt))) /\
  ~ Forall (placed 0 0 240 200)
           (trace (run (quiet tall)
                       (render clean_final 0 0 240 200 demo_weather demo_context) tt)).
Proof.
  split; [apply capped_widths |]. split.
  - vm_compute. repeat (first [left; reflexivity | right]).
  - intros H.
    assert (Hb : forallb (placedb 0 0 240 200)
                   (trace (run (quiet tall)
                      (render clean_final 0 0 240 200 demo_weather demo_context) tt))
                 = true).
    { apply forallb_forall. intros ev Hin. apply placedb_true.
      rewrite Forall_forall in H. apply H, Hin. }
    vm_compute in Hb. discriminate Hb.
Qed.

(** ** What a projection of the trace shows *)

Section Projections.
Context {P : Platform}.

Lemma via_ret {X A} (Rr : Answers) (proj : Event -> list X)
    (Qp : list X -> PyExc + A -> Prop) (a : A) :
  Qp [] (inr a) -> wpt Rr (Ret a) (via proj Qp).
Proof. intros H. exact H. Qed.

Lemma via_call {X A R} (Rr : Answers) (proj : Event -> list X)
    (Qp : list X -> PyExc + A -> Prop) (c : Call R) (f : R -> Prog A) :
  (forall e, Rr _ c (inl e) -> Qp (proj (Ev c)) (inl e)) ->
  (forall a, Rr _ c (inr a) ->
             wpt Rr (f a) (via proj (fun l res => Qp (proj (Ev c) ++ l) res))) ->
  wpt Rr (bind (call c) f) (via proj Qp).
Proof.
  intros He Ha. cbn [bind call wpt]. intros [e | a] Hr; cbn [bind wpt].
  - unfold via. simpl. rewrite app_nil_r. apply He, Hr.
  - eapply wpt_mono; [| apply Ha, Hr]. intros tr res H. exact H.
Qed.

Lemma via_call_silent {X A R} (Rr : Answers) (proj : Event -> list X)
    (Qp : list X -> PyExc + A -> Prop) (c : Call R) (f : R -> Prog A) :
  silent proj (Ev c) ->
  (forall e, Rr _ c (inl e) -> Qp [] (inl e)) ->
  (forall a, Rr _ c (inr a) -> wpt Rr (f a) (via proj Qp)) ->
  wpt Rr (bind (call c) f) (via proj Qp).
Proof.
  intros Hs He Ha. apply via_call.
  - rewrite Hs. exact He.
  - rewrite Hs. exact Ha.
Qed.

Lemma via_call_last {X R} (Rr : Answers) (proj : Event -> list X)
    (Qp : list X -> PyExc + R -> Prop) (c : Call R) :
  (forall e, Rr _ c (inl e) -> Qp (proj (Ev c)) (inl e)) ->
  (forall a, Rr _ c (inr a) -> Qp (proj (Ev c)) (inr a)) ->
  wpt Rr (call c) (via proj Qp).
Proof.
  intros He Ha. cbn [call wpt]. intros [e | a] Hr; cbn [wpt]; unfold via; simpl;
    rewrite app_nil_r; auto.
Qed.

Lemma silent_nothing {X} (proj : Event -> list X) (tr : list Event) :
  Forall (silent proj) tr -> flat_map proj tr = [].
Proof.
  induction 1 as [| ev tr Hev _ IH]; [reflexivity |].
  simpl. rewrite Hev, IH. reflexivity.
Qed.

(** A part of the program that the projection does not show. *)
Lemma via_silent {X A B} (Rr : Answers) (proj : Event -> list X)
    (Qp : list X -> PyExc + B -> Prop) (psi : A -> Prop)
    (m : Prog A) (f : A -> Prog B) :
  wpt Rr m (fun tr res =>
              Forall (silent proj) tr /\
              match res with inr a => psi a | inl _ => True end) ->
  (forall e, Qp [] (inl e)) ->
  (forall a, psi a -> wpt Rr (f a) (via proj Qp)) ->
  wpt Rr (bind m f) (via proj Qp).
Proof.
  intros Hm He Hf. apply wpt_bind. eapply wpt_mono; [| exact Hm].
  cbv beta. intros tr1 [e | a] [Htr Ha].
  - unfold via. rewrite (silent_nothing proj tr1 Htr). apply He.
  - eapply wpt_mono; [| apply Hf, Ha].
    intros tr2 res H. unfold via in *. rewrite flat_map_app.
    rewrite (silent_nothing proj tr1 Htr). exact H.
Qed.

(** A part of the program with a specification of its own. *)
Lemma via_bind {X A B} (Rr : Answers) (proj : Event -> list X)
    (Qp : list X -> PyExc + B -> Prop) (m : Prog A) (f : A -> Prog B) :
  wpt Rr m (via proj (fun l1 r =>
    match r with
    | inr a => wpt Rr (f a) (via proj (fun l2 res => Qp (l1 ++ l2) res))
    | inl e => Qp l1 (inl e)
    end)) ->
  wpt Rr (bind m f) (via proj Qp).
Proof.
  intros Hm. apply wpt_bind. eapply wpt_mono; [| exact Hm].
  cbv beta. unfold via at 1. intros tr1 [e | a] H; [exact H |].
  eapply wpt_mono; [| exact H].
  intros tr2 res H2. unfold via in *. rewrite flat_map_app. exact H2.
Qed.

Lemma via_try {X A} (Rr : Answers) (proj : Event -> list X)
    (Qp : list X -> PyExc + A -> Prop) (b : Prog A) (h : PyExc -> Prog A) :
  wpt Rr b (via proj (fun l1 r =>
    match r with
    | inr a => Qp l1 (inr a)
    | inl e =>
      if is_Exception e
      then wpt Rr (h e) (via proj (fun l2 res => Qp (l1 ++ l2) res))
      else Qp l1 (inl e)
    end)) ->
  wpt Rr (try_except_Exception b h) (via proj Qp).
Proof.
  intros Hb. apply wpt_try. eapply wpt_mono; [| exact Hb].
  cbv beta. unfold via at 1. intros tr1 [e | a] H; [| exact H].
  destruct (is_Exception e); [| exact H].
  eapply wpt_mono; [| exact H].
  intros tr2 res H2. unfold via in *. rewrite flat_map_app. exact H2.
Qed.

(** The loops of the clean-final version, call by call. *)
Lemma wrap2_ellips_measuring (Rr : Answers) (text : pystr) (font : option Font)
    (max_w max_lines : Z) :
  wpt Rr (wrap2_ellips text font max_w max_lines) (all_calls measuring).
Proof.
  assert (He : forall fuel rest,
             wpt Rr (ellipsize fuel rest font max_w) (all_calls measuring)).
  { induction fuel as [| fuel IH]; intros rest; [constructor |].
    cbn [ellipsize]. unfold text_width. apply wpt_assoc.
    apply wpt_all_call; [exact I |]. intros b _. cbn [bind].
    destruct (_ && _); [apply IH | constructor]. }
  assert (Hl : forall words lines cur,
             wpt Rr (wrap_loop font max_w max_lines words lines cur)
                 (all_calls measuring)).
  { induction words as [| w words IH]; intros lines cur; [constructor |].
    cbn [wrap_loop]. unfold text_width. apply wpt_assoc.
    apply wpt_all_call; [exact I |]. intros b _. cbn [bind].
    destruct (_ <=? _); [apply IH |].
    destruct (_ =? _); [| apply IH].
    apply wpt_all_bind with (psi := fun _ => True).
    - eapply wpt_mono; [| apply He].
      intros tr res H. split; [exact H | destruct res; exact I].
    - intros rest _. constructor. }
  unfold wrap2_ellips. destruct (split text); [constructor | apply Hl].
Qed.

Lemma try_alt_codes_calls (Rr : Answers) (Pc : Event -> Prop)
    (alt_codes : list pystr) (size : Z * Z) (cardinal_icon : option Icon) :
  (forall code, Pc (Ev (get_wind_icon code size))) ->
  (forall m, Pc (Ev (logger_info m))) ->
  wpt Rr (try_alt_codes alt_codes size cardinal_icon) (all_calls Pc).
Proof.
  intros Hi Hl.
  induction alt_codes as [| alt_code alt_codes IH]; [constructor |].
  cbn [try_alt_codes]. apply wpt_all_call; [apply Hi |].
  intros [icon |] _; [| apply IH].
  apply wpt_all_call; [apply Hl |]. intros _ _. constructor.
Qed.

End Projections.

(** One step towards [all_calls Pc]; [ob] proves [Pc] of a call. *)
Ltac all_go_with ob loop :=
  match goal with
  | |- wpt _ (Ret _) _ => constructor
  | |- wpt _ (call _) _ => apply wpt_all_call_last; ob
  | |- wpt _ (bind ?m _) _ =>
    match m with
    | call _ => apply wpt_all_call; [ob | intros ?a ?Hr; cbv beta]
    | bind _ _ => apply wpt_assoc
    | Ret _ => cbn [bind]; cbv beta
    | fonts_get2 _ _ => unfold fonts_get2 at 1
    | text_width _ _ => unfold text_width at 1
    | text_height _ _ => unfold text_height at 1
    | paste_if ?i _ _ => destruct i; unfold paste_if at 1
    | match ?x with Some _ => _ | None => _ end => destruct x
    | match ?x with pair _ _ => _ end => destruct x
    | if ?b then _ else _ => destruct b eqn:?
    | _ => loop
    end
  | |- wpt _ (match ?x with pair _ _ => _ end) _ => destruct x
  | |- wpt _ (match ?x with Some _ => _ | None => _ end) _ => destruct x
  | |- wpt _ (if ?b then _ else _) _ => destruct b eqn:?
  end.

(** One step towards [via proj Qp]; [exc] proves the postcondition of a run
    that an exception ends, [ans] takes in the answer of a call. *)
Ltac via_go exc ans loop :=
  match goal with
  | |- wpt _ (Ret _) _ => apply via_ret
  | |- wpt _ (call _) _ =>
    apply via_call_last; [intros ?e ?Hr; exc | intros ?a ?Hr; ans]
  | |- wpt _ (bind ?m _) _ =>
    match m with
    | call _ =>
      first [ apply via_call_silent;
              [exact eq_refl | intros ?e ?Hr; exc | intros ?a ?Hr; cbv beta; ans]
            | apply via_call; [intros ?e ?Hr; exc | intros ?a ?Hr; cbv beta; ans] ]
    | bind _ _ => apply wpt_assoc
    | Ret _ => cbn [bind]; cbv beta
    | fonts_get2 _ _ => unfold fonts_get2 at 1
    | text_width _ _ => unfold text_width at 1
    | text_height _ _ => unfold text_height at 1
    | paste_if ?i _ _ => destruct i eqn:?; unfold paste_if at 1
    | match ?x with Some _ => _ | None => _ end => destruct x eqn:?
    | match ?x with pair _ _ => _ end => destruct x eqn:?
    | if ?b then _ else _ => destruct b eqn:?
    | _ => loop
    end
  | |- wpt _ (match ?x with pair _ _ => _ end) _ => destruct x eqn:?
  | |- wpt _ (match ?x with Some _ => _ | None => _ end) _ => destruct x eqn:?
  | |- wpt _ (if ?b then _ else _) _ => destruct b eqn:?
  end.

(** The loops of the clean-final version when the projection shows none of
    their calls. *)
Ltac silent_loops exc :=
  idtac;
  match goal with
  | |- wpt _ (bind (wrap2_ellips _ _ _ _) _) _ =>
    eapply via_silent with (psi := fun _ => True);
    [ eapply wpt_mono; [| apply wrap2_ellips_measuring];
      intros ?tr ?res ?H; split;
      [ eapply Forall_impl; [| eassumption];
        let c := fresh "c" in
        intros [? c]; destruct c; simpl; intros []; exact eq_refl
      | destruct res; exact I ]
    | intros ?e; exc
    | intros ?a _; cbv beta ]
  | |- wpt _ (bind (for_enumerate _ _ _) _) (via ?proj _) =>
    eapply via_silent with (psi := fun _ => True);
    [ eapply wpt_mono; [| apply wpt_all_for_enumerate with (Pc := silent proj);
                          intros ?j ?line ?Hj;
                          repeat all_go_with ltac:(exact eq_refl) fail];
      intros ?tr ?res ?H; split; [exact H | destruct res; exact I]
    | intros ?e; exc
    | intros ?a _; cbv beta ]
  | |- wpt _ (bind (try_alt_codes _ _ _) _) (via ?proj _) =>
    eapply via_silent with (psi := fun _ => True);
    [ eapply wpt_mono; [| apply try_alt_codes_calls with (Pc := silent proj);
                          intros; exact eq_refl];
      intros ?tr ?res ?H; split; [exact H | destruct res; exact I]
    | intros ?e; exc
    | intros ?a _; cbv beta ]
  end.

(** ** C5: the module frame *)

Section Frames.
Context {P : Platform}.

Lemma body_no_rectangle (v : Version) (x y width height : Z) (wd cd : Dict) :
  has_frame v = false ->
  wpt any_answer (body v x y width height wd cd)
      (via rectangle_of (fun l _ => l = [])).
Proof.
  intros Hv. destruct v; try discriminate Hv; unfold_body.
  all: repeat via_go ltac:(reflexivity) idtac fail.
  all: reflexivity.
Qed.

Lemma body_one_rectangle (v : Version) (x y width height : Z) (wd cd : Dict) :
  has_frame v = true ->
  wpt any_answer (body v x y width height wd cd)
      (via rectangle_of (fun l res =>
         match res with
         | inr _ => l = [frame x y width height]
         | inl _ => l = [] \/ l = [frame x y width height]
         end)).
Proof.
  intros Hv. destruct v; try discriminate Hv; unfold_body; cbv zeta.
  all: repeat via_go ltac:(simpl; auto) idtac ltac:(silent_loops ltac:(simpl; auto)).
  all: reflexivity.
Qed.

End Frames.

(** ** What [render] shows of its body *)

Section Shown.
Context {P : Platform}.

(** The [except] block adds a log record and the fallback call to the calls of
    the body: a projection that shows neither shows of [render] what it shows
    of the body. *)
Lemma render_shows_body {X S} (proj : Event -> list X) (o : Oracle S) (s : S)
    (v : Version) (x y width height : Z) (wd cd : Dict) :
  (forall m, proj (Ev (logger_error m)) = []) ->
  (forall x y width height message,
      proj (Ev (render_fallback_content x y width height message)) = []) ->
  flat_map proj (trace (run o (render v x y width height wd cd) s))
  = flat_map proj (trace (run o (body v x y width height wd cd) s)).
Proof.
  intros Hlog Hfall. unfold render. rewrite run_try.
  destruct (result (run o (body v x y width height wd cd) s)) as [e | ok];
    [| reflexivity].
  destruct (is_Exception e); [| reflexivity].
  cbn [trace]. rewrite flat_map_app.
  pose proof (run_on_exception o v x y width height e
                (final (run o (body v x y width height wd cd) s))) as Hh.
  cbv zeta in Hh.
  destruct (fst (respond o (logger_error (MsgRenderingFailed v e)) _));
    destruct Hh as [_ Ht]; rewrite Ht; simpl;
    rewrite ?Hlog, ?Hfall; simpl; apply app_nil_r.
Qed.

(** X7. The frame.  The two layout-fix versions never draw a rectangle.  The
    text-bounds-fix and clean-final versions draw at most one, the frame
    [(x + 2, y + 2), (x + width - 2, y + height - 2)] with outline 0 and line
    width 2, and they have drawn it whenever the body of [render] completes;
    the frame lies in the module's region as soon as the module is 4 pixels
    wide and high. *)
Theorem frame_drawn_once {S} (o : Oracle S) (s : S)
    (v : Version) (x y width height : Z) (wd cd : Dict) :
  let b := run o (body v x y width height wd cd) s in
  let r := run o (render v x y width height wd cd) s in
  (has_frame v = false -> rectangles (trace r) = []) /\
  (has_frame v = true ->
   (rectangles (trace r) = [] \/
    rectangles (trace r) = [frame x y width height]) /\
   (forall ok, result b = inr ok ->
               rectangles (trace r) = [frame x y width height])) /\
  (4 <= width -> 4 <= height ->
   within x y width height (x + 2, y + 2) /\
   within x y width height (x + width - 2, y + height - 2)).
Proof.
  intros b r. subst b r. unfold rectangles.
  rewrite (render_shows_body rectangle_of) by reflexivity.
  split; [| split].
  - intros Hv.
    exact (wpt_sound any_answer o _ _ s (obeys_any o)
             (body_no_rectangle v x y width height wd cd Hv)).
  - intros Hv.
    pose proof (wpt_sound any_answer o _ _ s (obeys_any o)
                  (body_one_rectangle v x y width height wd cd Hv)) as H.
    unfold via in H.
    destruct (result (run o (body v x y width height wd cd) s)) as [e | ok'].
    + split; [exact H | discriminate].
    + split; [right; exact H | intros; exact H].
  - intros Hw Hh. unfold within. simpl. lia.
Qed.

(** The reads of the weather data, for every version and whatever the
    collaborators answer. *)
Lemma body_reads (v : Version) (x y width height : Z) (wd cd : Dict) :
  let speed := (wd, py "wind_speed", zero, conv_float) in
  let direction := (wd, py "wind_direction", zero, conv_float) in
  wpt any_answer (body v x y width height wd cd)
      (via read_of (fun l res =>
         match res with
         | inr _ => l = [speed; direction]
         | inl _ => l = [] \/ l = [speed] \/ l = [speed; direction]
         end)).
Proof.
  intros speed direction. subst speed direction.
  destruct v; unfold_body; cbv zeta.
  all: repeat via_go ltac:(simpl; auto) idtac ltac:(silent_loops ltac:(simpl; auto)).
  all: reflexivity.
Qed.

(** X8. [render] reads the weather data twice at most, first 'wind_speed' and then
    'wind_direction', each through [safe_get_value] with the default 0.0 and
    the conversion [float]; it has made both reads whenever its body
    completes, and it never hands [context_data] to [safe_get_value]. *)
Theorem weather_data_reads {S} (o : Oracle S) (s : S)
    (v : Version) (x y width height : Z) (wd cd : Dict) :
  let b := run o (body v x y width height wd cd) s in
  let r := run o (render v x y width height wd cd) s in
  let speed := (wd, py "wind_speed", zero, conv_float) in
  let direction := (wd, py "wind_direction", zero, conv_float) in
  (data_reads (trace r) = [] \/ data_reads (trace r) = [speed] \/
   data_reads (trace r) = [speed; direction]) /\
  (forall ok, result b = inr ok -> data_reads (trace r) = [speed; direction]).
Proof.
  intros b r speed direction. subst b r speed direction. unfold data_reads.
  rewrite (render_shows_body read_of) by reflexivity.
  pose proof (wpt_sound any_answer o _ _ s (obeys_any o)
                (body_reads v x y width height wd cd)) as H.
  unfold via in H. cbv zeta in H.
  destruct (result (run o (body v x y width height wd cd) s)) as [e | ok'].
  - split; [exact H | discriminate].
  - split; [right; right; exact H | intros; exact H].
Qed.

End Shown.

(** ** One pass over the layout *)

Section SinglePass.
Context {P : Platform}.

Lemma draw_calls_of (tr : list Event) : flat_map draw_of tr = draw_calls tr.
Proof.
  induction tr as [| ev tr IH]; [reflexivity |].
  cbn [flat_map draw_calls filter]. unfold draw_of at 1.
  destruct (is_draw ev); cbn [app]; rewrite IH; reflexivity.
Qed.

Lemma wrap_loop_count (Rr : Answers) (font : option Font) (max_w max_lines : Z)
    (words lines : list pystr) (cur : pystr) :
  1 <= max_lines -> Forall word words ->
  words <> [] \/ truthy cur = true \/ lines <> [] ->
  wpt Rr (wrap_loop font max_w max_lines words lines cur)
      (fun _ res => match res with
                    | inr ls => 1 <= len ls <= max_lines
                    | inl _ => True
                    end).
Proof.
  intros Hmax. revert lines cur.
  induction words as [| w words IH]; intros lines cur Hw Hinv.
  - cbn [wrap_loop wpt].
    rewrite slice_to_length by lia.
    assert (1 <= len (if truthy cur then lines ++ [cur] else lines)).
    { destruct Hinv as [H | [H | H]]; [congruence | |].
      - rewrite H. unfold len. rewrite length_app. simpl. lia.
      - destruct (truthy cur); unfold len.
        + rewrite length_app. simpl. lia.
        + destruct lines; [congruence | simpl; lia]. }
    lia.
  - assert (Hw1 : word w) by (inversion Hw; assumption).
    assert (Hw2 : Forall word words) by (inversion Hw; assumption).
    cbn [wrap_loop text_width bind call wpt]. intros [e | b] Hr; cbn [bind wpt];
      [exact I |].
    destruct (bb2 b - bb0 b <=? max_w).
    + eapply wpt_mono; [| apply IH; auto]. { auto. }
      right. left. apply strip_with_word, Hw1.
    + destruct (len (if truthy cur then lines ++ [cur] else lines) =? max_lines - 1)
        eqn:El.
      * apply wpt_bind. eapply wpt_mono; [| apply wpt_any with (Q := fun _ _ => True)];
          [| exact (fun _ _ => I)].
        cbv beta. intros tr [e | r] _; [exact I |]. cbn [wpt].
        apply Z.eqb_eq in El. unfold len in *. rewrite length_app. simpl. lia.
      * eapply wpt_mono; [| apply IH; auto]. { auto. }
        right. left. apply word_truthy, Hw1.
Qed.

Lemma wpt_and {A} (Rr : Answers) (p : Prog A)
    (Q1 Q2 : list Event -> PyExc + A -> Prop) :
  wpt Rr p Q1 -> wpt Rr p Q2 -> wpt Rr p (fun tr res => Q1 tr res /\ Q2 tr res).
Proof.
  revert Q1 Q2. induction p as [a | e | R c k IH]; intros Q1 Q2; simpl; auto.
Qed.

Lemma wrap2_ellips_count (Rr : Answers) (text : pystr) (font : option Font)
    (max_w max_lines : Z) :
  1 <= max_lines ->
  wpt Rr (wrap2_ellips text font max_w max_lines)
      (fun tr res =>
         Forall measuring tr /\
         match res with
         | inr ls => 1 <= len ls <= max_lines
         | inl _ => True
         end).
Proof.
  intros Hmax. apply wpt_and; [apply wrap2_ellips_measuring |].
  unfold wrap2_ellips.
  pose proof (split_words text) as Hw.
  destruct (split text) as [| w words] eqn:E.
  - simpl. unfold len. simpl. lia.
  - apply wrap_loop_count; auto. left. discriminate.
Qed.


(** The loop that draws the lines makes one draw call for each. *)
Lemma for_enumerate_draws (Rr : Answers) (font : option Font) (fill : Z)
    (pos : Z -> Z -> Z * Z) (lines : list pystr) (i : Z) :
  wpt Rr
      (for_enumerate i lines (fun j line =>
         bind (text_height line font) (fun h =>
           call (draw_text_with_fallback (pos j h) line font fill))))
      (via draw_of (fun l res =>
         match res with
         | inr _ => len l = len lines
         | inl _ => len l <= len lines
         end)).
Proof.
  revert i. induction lines as [| line lines IH]; intros i.
  - cbn [for_enumerate]. apply via_ret. reflexivity.
  - cbn [for_enumerate]. apply wpt_assoc. unfold text_height at 1.
    apply wpt_assoc.
    apply via_call_silent; [exact eq_refl | intros e Hr; unfold len; simpl; lia |].
    intros b _. cbn [bind].
    apply via_call; [intros e Hr; unfold len; simpl; lia |].
    intros u _. cbv beta.
    eapply wpt_mono; [| apply IH].
    intros tr res H. unfold via in *. cbv beta.
    destruct res; unfold len in *; simpl in *; lia.
Qed.

Ltac count_draws :=
  cbv beta; unfold len in *; cbn [draw_of is_draw effect_of];
  rewrite ?length_app; cbn [List.length app]; lia.

Lemma body_draws (v : Version) (x y width height : Z) (wd cd : Dict) :
  wpt any_answer (body v x y width height wd cd)
      (via draw_of (fun l res =>
         match res with
         | inr _ => 3 <= len l <= 7
         | inl _ => len l <= 7
         end)).
Proof.
  destruct v; unfold_body; cbv zeta.
  1-3: repeat via_go count_draws idtac fail; count_draws.
  repeat via_go count_draws idtac fail.
  (* the description is wrapped: one or two lines *)
  eapply via_silent with (psi := fun ls : list pystr => 1 <= len ls <= 2).
  { eapply wpt_mono; [| apply wrap2_ellips_count with (max_lines := 2); lia].
    cbv beta. intros tr res [Htr Hres]. split; [| exact Hres].
    eapply Forall_impl; [| exact Htr].
    intros [R c]; destruct c; simpl; intros []; exact eq_refl. }
  { intros e. count_draws. }
  intros desc_lines Hlines. cbv beta.
  (* its lines are drawn *)
  apply via_bind. eapply wpt_mono; [| eapply for_enumerate_draws].
  intros tr res Hl. unfold via in Hl. unfold via at 1.
  set (drawn := flat_map draw_of tr) in *. clearbody drawn.
  destruct res as [e | u]; [count_draws |].
  (* the icons and the direction *)
  repeat via_go count_draws idtac ltac:(silent_loops count_draws).
  all: count_draws.
Qed.

(** A run of [render] is one pass over the layout: it issues eight draw calls
    at most, and three at least when its body completes. *)
Lemma render_single_pass {S} (o : Oracle S) (s : S)
    (v : Version) (x y width height : Z) (wd cd : Dict) :
  let b := run o (body v x y width height wd cd) s in
  let r := run o (render v x y width height wd cd) s in
  len (draw_calls (trace r)) <= 8 /\
  (forall ok, result b = inr ok -> 3 <= len (draw_calls (trace r))).
Proof.
  intros b r. subst b r.
  pose proof (wpt_sound any_answer o _ _ s (obeys_any o)
                (body_draws v x y width height wd cd)) as Hb.
  unfold via in Hb. rewrite draw_calls_of in Hb.
  unfold render. rewrite run_try.
  destruct (result (run o (body v x y width height wd cd) s)) as [e | ok].
  - split; [| discriminate].
    destruct (is_Exception e); [| lia].
    cbn [trace].
    pose proof (run_on_exception o v x y width height e
                  (final (run o (body v x y width height wd cd) s))) as Hh.
    cbv zeta in Hh.
    destruct (fst (respond o (logger_error (MsgRenderingFailed v e)) _));
      destruct Hh as [_ Ht]; rewrite Ht; unfold draw_calls in *;
      rewrite filter_app; unfold len in *; rewrite length_app; simpl; lia.
  - split; [lia | intros _ _; lia].
Qed.

End SinglePass.

(** ** C6 and C7: what [render] reaches *)

(** The loops of the clean-final version, for a property [ob] proves of every
    call. *)
Ltac calls_loops ob :=
  idtac;
  match goal with
  | |- wpt _ (bind (wrap2_ellips _ _ _ _) _) _ =>
    apply wpt_all_bind with (psi := fun _ => True);
    [ eapply wpt_mono; [| apply wrap2_ellips_measuring];
      intros ?tr ?res ?H; split;
      [ eapply Forall_impl; [| exact H];
        let c := fresh "c" in
        intros [? c]; destruct c; simpl; intros []; ob
      | destruct res; exact I ]
    | intros ?a _; cbv beta ]
  | |- wpt _ (bind (for_enumerate _ _ _) _) (all_calls ?Qc) =>
    apply wpt_all_bind with (psi := fun _ => True);
    [ eapply wpt_mono; [| apply wpt_all_for_enumerate with (Pc := Qc);
                          intros ?j ?line ?Hj; repeat all_go_with ob fail];
      intros ?tr ?res ?H; split; [exact H | destruct res; exact I]
    | intros ?a _; cbv beta ]
  | |- wpt _ (bind (try_alt_codes _ _ _) _) (all_calls ?Qc) =>
    apply wpt_all_bind with (psi := fun _ => True);
    [ eapply wpt_mono; [| apply try_alt_codes_calls with (Pc := Qc); intros; ob];
      intros ?tr ?res ?H; split; [exact H | destruct res; exact I]
    | intros ?a _; cbv beta ]
  end.

Section Reach.
Context {P : Platform}.

(** Every call of [render] is a call on a collaborator: no version changes a
    mapping, sets an attribute of the renderer or reads one, on any path. *)
Lemma render_calls_collaborators (v : Version) (x y width height : Z)
    (wd cd : Dict) :
  wpt any_answer (render v x y width height wd cd)
      (all_calls (fun ev => collaborator ev = true)).
Proof.
  unfold render. apply wpt_all_try.
  - destruct v; unfold_body; cbv zeta.
    all: repeat all_go_with ltac:(exact eq_refl)
                            ltac:(calls_loops ltac:(exact eq_refl)).
  - intros e. unfold on_exception.
    repeat all_go_with ltac:(exact eq_refl) fail.
Qed.

(** [render] never looks at [context_data]. *)
Lemma render_ignores_context_data (v : Version) (x y width height : Z)
    (weather_data context_data context_data' : Dict) :
  render v x y width height weather_data context_data
  = render v x y width height weather_data context_data'.
Proof. destruct v; reflexivity. Qed.

(** A program that calls nothing but collaborators, and gets from them the
    answers of another run, makes the calls of that run and ends as it does,
    whatever else differs between the two. *)
Lemma run_agrees {A S1 S2} (p : Prog A)
    (o1 : Oracle S1) (s1 : S1) (o2 : Oracle S2) (s2 : S2) :
  Forall (fun ev => collaborator ev = true) (trace (run o1 p s1)) ->
  responses_agree o1 s1 o2 s2 (trace (run o1 p s1)) ->
  trace (run o1 p s1) = trace (run o2 p s2) /\
  result (run o1 p s1) = result (run o2 p s2).
Proof.
  revert s1 s2. induction p as [a | e | R c k IH]; intros s1 s2; cbn [run trace result].
  - auto.
  - auto.
  - intros Hall Hagree.
    assert (Hr : fst (respond o1 c s1) = fst (respond o2 c s2)).
    { apply (Hagree [] R c _ eq_refl). exact (Forall_inv Hall). }
    rewrite <- Hr.
    destruct (IH (fst (respond o1 c s1)) (snd (respond o1 c s1))
                 (snd (respond o2 c s2))) as [Ht Hres].
    + exact (Forall_inv_tail Hall).
    + intros before R' c' rest E Hc'.
      apply (Hagree (Ev c :: before) R' c' rest); [| exact Hc'].
      cbn [app]. rewrite E. reflexivity.
    + rewrite Ht, Hres. auto.
Qed.

(** C6. Take two runs of [render] on the same arguments such that, at each
    call the first run makes on a collaborator (logger, base class, icon
    manager, fonts, drawing backend), the collaborators of the second run,
    having seen the same calls, respond as those of the first; nothing is
    asked of what the renderer's attributes or the mappings hold in the two
    runs.  Then the two runs issue the same draw calls in the same order
    (indeed the same calls altogether) and return the same value or raise the
    same exception: [render] consults nothing but its arguments and the
    answers of its collaborators.  And a run is a single pass: it issues
    eight draw calls at most (the frame, the speed text, two lines of
    description, two icons or the arrow drawn in place of one, the direction,
    the fallback content), and three at least, the texts, when the body
    completes. *)
Theorem render_deterministic {S1 S2} (o1 : Oracle S1) (s1 : S1)
    (o2 : Oracle S2) (s2 : S2)
    (v : Version) (x y width height : Z) (weather_data context_data : Dict) :
  let p := render v x y width height weather_data context_data in
  let b := body v x y width height weather_data context_data in
  responses_agree o1 s1 o2 s2 (trace (run o1 p s1)) ->
  draw_calls (trace (run o1 p s1)) = draw_calls (trace (run o2 p s2)) /\
  trace (run o1 p s1) = trace (run o2 p s2) /\
  result (run o1 p s1) = result (run o2 p s2) /\
  len (draw_calls (trace (run o1 p s1))) <= 8 /\
  (forall ok, result (run o1 b s1) = inr ok ->
              3 <= len (draw_calls (trace (run o1 p s1)))).
Proof.
  intros p b H.
  destruct (run_agrees p o1 s1 o2 s2) as [Ht Hr]; [| exact H |].
  - exact (wpt_sound any_answer o1 _ _ s1 (obeys_any o1)
             (render_calls_collaborators v x y width height
                                         weather_data context_data)).
  - destruct (render_single_pass o1 s1 v x y width height
                                 weather_data context_data) as [Hmost Hleast].
    rewrite <- Ht. auto.
Qed.

(** What the calls on collaborators leave alone, a program that calls nothing
    but collaborators leaves alone; and its effect on the world is the effect
    of its drawing and logging calls. *)
Lemma run_frame {A S T} (o : Oracle S) (view : S -> T) (p : Prog A) (s : S) :
  (forall R (c : Call R) s, collaborator (Ev c) = true ->
                            is_read (Ev c) = true -> snd (respond o c s) = s) ->
  (forall R (c : Call R) s, collaborator (Ev c) = true ->
                            is_read (Ev c) = false ->
                            view (snd (respond o c s)) = view s) ->
  Forall (fun ev => collaborator ev = true) (trace (run o p s)) ->
  view (final (run o p s)) = view s /\
  final (run o p s) = replay o (trace (run o p s)) s.
Proof.
  intros Hread Hdraw. revert s.
  induction p as [a | e | R c k IH]; intros s; cbn [run trace final replay]; auto.
  intros Hall.
  destruct (IH (fst (respond o c s)) (snd (respond o c s))
               (Forall_inv_tail Hall)) as [Hv Hf].
  pose proof (Forall_inv Hall) as Hc. cbv beta in Hc.
  destruct (is_read (Ev c)) eqn:Ec.
  - rewrite (Hread _ c s Hc Ec) in *. auto.
  - rewrite Hv, Hf. split; [apply Hdraw; assumption | reflexivity].
Qed.

(** C7. [render] does nothing but call its collaborators: it performs no
    operation on a mapping and none on an attribute of the renderer.  So let
    the collaborators be such that their queries change nothing and their
    drawing and logging calls leave a part [view] of the world alone (what
    [weather_data] and [context_data] hold, the renderer's attributes).  Then
    after [render], on the normal and on the fallback path alike, that part is
    unchanged, and the world is what the drawing and logging calls alone make
    of it.  Besides, [context_data] reaches no collaborator. *)
Theorem render_frame {S T} (o : Oracle S) (view : S -> T) (s : S)
    (v : Version) (x y width height : Z) (weather_data context_data : Dict) :
  (forall R (c : Call R) s, collaborator (Ev c) = true ->
                            is_read (Ev c) = true -> snd (respond o c s) = s) ->
  (forall R (c : Call R) s, collaborator (Ev c) = true ->
                            is_read (Ev c) = false ->
                            view (snd (respond o c s)) = view s) ->
  let r := run o (render v x y width height weather_data context_data) s in
  Forall (fun ev => collaborator ev = true) (trace r) /\
  view (final r) = view s /\
  final r = replay o (trace r) s /\
  (forall context_data',
      render v x y width height weather_data context_data'
      = render v x y width height weather_data context_data).
Proof.
  intros Hread Hdraw r. subst r.
  pose proof (wpt_sound any_answer o _ _ s (obeys_any o)
                (render_calls_collaborators v x y width height
                                            weather_data context_data)) as Hall.
  unfold all_calls in Hall.
  destruct (run_frame o view
              (render v x y width height weather_data context_data) s
              Hread Hdraw Hall) as [Hv Hf].
  repeat split; auto.
  intros cd'. apply render_ignores_context_data.
Qed.

End Reach.

Lemma render_deterministic_witness :
  let p := render clean_final 0 0 240 200 demo_weather demo_context in
  responses_agree (quiet breeze) tt (painting breeze_again) demo_world
                  (trace (run (quiet breeze) p tt)) /\
  draw_calls (trace (run (quiet breeze) p tt))
  = draw_calls (trace (run (painting breeze_again) p demo_world)) /\
  result (run (painting breeze_again) p demo_world) = inr true.
Proof.
  assert (H : responses_agree (quiet breeze) tt (painting breeze_again) demo_world
                (trace (run (quiet breeze)
                            (render clean_final 0 0 240 200
                                    demo_weather demo_context) tt))).
  { intros before R c rest _ Hc. destruct c; try discriminate Hc; reflexivity. }
  split; [exact H |].
  destruct (render_deterministic (quiet breeze) tt (painting breeze_again)
              demo_world clean_final 0 0 240 200 demo_weather demo_context H)
    as [Hd [_ [Hr _]]].
  split; [exact Hd |]. rewrite <- Hr. vm_compute. reflexivity.
Defined.

(** A method that consults an attribute of the renderer is not determined by
    its arguments and the collaborators' answers. *)
Example kept_value_shows :
  let p := bind (call (get_attribute (py "last_speed")))
                (fun v => call (get_wind_description_swedish v)) in
  responses_agree (quiet breeze) tt (quiet breeze_again) tt
                  (trace (run (quiet breeze) p tt)) /\
  trace (run (quiet breeze) p tt) <> trace (run (quiet breeze_again) p tt).
Proof.
  split.
  - intros before R c rest _ Hc. destruct c; try discriminate Hc; reflexivity.
  - vm_compute. intros H. inversion H.
Qed.

Lemma painting_reads (sc : @Scenario demo) R (c : Call R) (w : World) :
  collaborator (Ev c) = true -> is_read (Ev c) = true ->
  snd (respond (painting sc) c w) = w.
Proof.
  intros _. unfold is_read. cbn [painting respond snd]. unfold record_call.
  destruct (effect_of (Ev c)); congruence.
Qed.

Lemma painting_draws (sc : @Scenario demo) R (c : Call R) (w : World) :
  collaborator (Ev c) = true -> is_read (Ev c) = false ->
  kept (snd (respond (painting sc) c w)) = kept w.
Proof.
  intros Hc _. cbn [painting respond snd]. unfold record_call.
  destruct c; try discriminate Hc; reflexivity.
Qed.

Lemma render_frame_witness :
  let r := run (painting breeze)
               (render clean_final 0 0 240 200 demo_weather demo_context)
               demo_world in
  kept (final r) = (demo_weather, demo_context, []) /\
  final r = replay (painting breeze) (trace r) demo_world.
Proof.
  destruct (render_frame (painting breeze) kept demo_world
              clean_final 0 0 240 200 demo_weather demo_context
              (painting_reads breeze) (painting_draws breeze))
    as [_ [Hv [Hf _]]].
  split; [exact Hv | exact Hf].
Defined.

(** A method that changes a mapping is seen to: the world keeps the change. *)
Example change_shows :
  let p := call (change_mapping demo_weather (del_item (py "wind_speed"))) in
  kept (final (run (painting breeze) p demo_world)) <> kept demo_world.
Proof. vm_compute. intros H. inversion H. Qed.

(** ** The texts drawn when nothing raises *)

Ltac quiet_exc :=
  idtac;
  match goal with
  | H : answers_of _ _ _ (inl _) |- _ => unfold answers_of in H; discriminate H
  end.

Ltac quiet_ans :=
  idtac;
  match goal with
  | H : answers_of _ _ _ (inr ?a) |- _ =>
    unfold answers_of in H; injection H as H; subst a; cbn [answer]
  end.

Section Texts.
Context {P : Platform}.

(** Against collaborators that answer by pure functions, [wpt] holds of the
    run itself. *)
Lemma wpt_quiet_run {A} (sc : Scenario) (p : Prog A) :
  wpt (answers_of sc) p
      (fun tr res => tr = trace (run (quiet sc) p tt) /\
                     res = result (run (quiet sc) p tt)).
Proof.
  induction p as [a | e | R c k IH]; cbn [wpt run trace result]; auto.
  intros r Hr. unfold answers_of in Hr. subst r.
  eapply wpt_mono; [| apply IH].
  cbv beta. intros tr res [-> ->]. split; reflexivity.
Qed.

Lemma quiet_returns (sc : Scenario) : obeys (quiet sc) textbbox_returns.
Proof. intros R c s. destruct c; exact I. Qed.

Lemma wrap2_ellips_quiet (sc : Scenario) (text : pystr) (font : option Font)
    (max_w max_lines : Z) :
  1 <= max_lines ->
  wpt (answers_of sc) (wrap2_ellips text font max_w max_lines)
      (fun tr res =>
         Forall measuring tr /\
         res = inr (wrapped sc text font max_w max_lines)).
Proof.
  intros Hmax. eapply wpt_mono; [| apply wpt_quiet_run].
  cbv beta. intros tr res [-> ->]. split.
  - exact (wpt_sound any_answer (quiet sc) _ _ tt (obeys_any _)
             (wrap2_ellips_measuring any_answer text font max_w max_lines)).
  - destruct (wpt_sound textbbox_returns (quiet sc) _ _ tt (quiet_returns sc)
                (wrap2_ellips_wpt_length text font max_w max_lines Hmax))
      as [ls [E _]].
    unfold wrapped. rewrite E. reflexivity.
Qed.

(** The loop that draws the lines draws them all, in order. *)
Lemma for_enumerate_texts (sc : Scenario) (font : option Font) (fill : Z)
    (pos : Z -> Z -> Z * Z) (lines : list pystr) (i : Z) :
  wpt (answers_of sc)
      (for_enumerate i lines (fun j line =>
         bind (text_height line font) (fun h =>
           call (draw_text_with_fallback (pos j h) line font fill))))
      (via text_of (fun l res => l = lines /\ res = inr tt)).
Proof.
  revert i. induction lines as [| line lines IH]; intros i.
  - cbn [for_enumerate]. apply via_ret. auto.
  - cbn [for_enumerate]. apply wpt_assoc. unfold text_height at 1.
    apply wpt_assoc.
    apply via_call_silent; [exact eq_refl | intros e Hr; quiet_exc |].
    intros b _. cbn [bind].
    apply via_call; [intros e Hr; quiet_exc |].
    intros u _. cbv beta.
    eapply wpt_mono; [| apply IH].
    intros tr res [Hl Hres]. unfold via in *. cbv beta.
    split; [simpl; rewrite Hl; reflexivity | exact Hres].
Qed.

Lemma via_silent_returns {X A B} (Rr : Answers) (proj : Event -> list X)
    (Qp : list X -> PyExc + B -> Prop) (psi : A -> Prop)
    (m : Prog A) (f : A -> Prog B) :
  wpt Rr m (fun tr res =>
              Forall (silent proj) tr /\ exists a, res = inr a /\ psi a) ->
  (forall a, psi a -> wpt Rr (f a) (via proj Qp)) ->
  wpt Rr (bind m f) (via proj Qp).
Proof.
  intros Hm Hf. apply wpt_bind. eapply wpt_mono; [| exact Hm].
  cbv beta. intros tr1 res [Htr [a [-> Ha]]].
  eapply wpt_mono; [| apply Hf, Ha].
  intros tr2 res H. unfold via in *. rewrite flat_map_app.
  rewrite (silent_nothing proj tr1 Htr). exact H.
Qed.

Lemma try_alt_codes_quiet (sc : Scenario) (Pc : Event -> Prop)
    (alt_codes : list pystr) (size : Z * Z) (cardinal_icon : option Icon) :
  (forall code, Pc (Ev (get_wind_icon code size))) ->
  (forall m, Pc (Ev (logger_info m))) ->
  wpt (answers_of sc) (try_alt_codes alt_codes size cardinal_icon)
      (fun tr res => Forall Pc tr /\ exists a, res = inr a /\ True).
Proof.
  intros Hi Hl.
  induction alt_codes as [| alt_code alt_codes IH].
  - cbn [try_alt_codes wpt]. split; [constructor | eauto].
  - cbn [try_alt_codes bind call wpt]. intros r Hr.
    unfold answers_of in Hr. subst r. cbn [bind].
    destruct (answer sc (get_wind_icon alt_code size)) as [icon |].
    + cbn [bind call wpt]. intros r Hr. unfold answers_of in Hr. subst r.
      cbn [bind wpt]. split; [repeat constructor; auto | eauto].
    + eapply wpt_mono; [| apply IH].
      cbv beta. intros tr res [Htr Hres]. split; [| exact Hres].
      constructor; [apply Hi | exact Htr].
Qed.

Lemma body_texts (sc : Scenario) (v : Version) (x y width height : Z)
    (wd cd : Dict) :
  let speed := sc_value sc wd (py "wind_speed") zero in
  let direction := sc_value sc wd (py "wind_direction") zero in
  let description := sc_description sc speed in
  wpt (answers_of sc) (body v x y width height wd cd)
      (via text_of (fun l res =>
         res = inr true /\
         l = [format_1f speed ++ py " m/s"]
             ++ match v with
                | clean_final =>
                  wrapped sc description
                          (font_of sc (py "small_main") (py "small_desc")) 172 2
                | _ => [description]
                end
             ++ [fst (sc_direction sc direction)])).
Proof.
  intros speed direction description. subst speed direction description.
  destruct v; unfold_body; cbv zeta.
  1-3: repeat via_go quiet_exc quiet_ans fail; cbv beta; split; reflexivity.
  repeat via_go quiet_exc quiet_ans fail.
  (* the description is wrapped *)
  eapply via_silent_returns
    with (psi := fun ls =>
            ls = wrapped sc (sc_description sc
                               (sc_value sc wd (py "wind_speed") zero))
                         (font_of sc (py "small_main") (py "small_desc")) 172 2).
  { eapply wpt_mono; [| apply wrap2_ellips_quiet; lia].
    cbv beta. intros tr res [Htr ->]. split; [| eauto].
    eapply Forall_impl; [| exact Htr].
    intros [R c]; destruct c; simpl; intros []; exact eq_refl. }
  intros desc_lines ->.
  (* its lines are drawn *)
  apply via_bind. eapply wpt_mono; [| eapply for_enumerate_texts].
  intros tr res H. unfold via in H. destruct H as [Hl ->].
  unfold via at 1. rewrite Hl. cbv beta iota.
  (* the icons and the direction *)
  repeat via_go quiet_exc quiet_ans ltac:(
    eapply via_silent_returns with (psi := fun _ => True);
    [ apply try_alt_codes_quiet; intros; exact eq_refl
    | intros ? _; cbv beta ]).
  all: cbv beta; split; reflexivity.
Qed.

(** X9. When no call raises: [render] returns [True]; the two layout-fix versions
    and the text-bounds-fix version draw three texts, the speed formatted as
    'x.y m/s' by [render] itself, the description as the icon manager gave it,
    unwrapped and unmeasured for width, and the short direction; the
    clean-final version draws the lines of [wrap2_ellips] (172 pixels, 2
    lines) in place of the description. *)
Theorem texts_drawn_quietly (sc : Scenario) (v : Version) (x y width height : Z)
    (wd cd : Dict) :
  let speed := sc_value sc wd (py "wind_speed") zero in
  let direction := sc_value sc wd (py "wind_direction") zero in
  let description := sc_description sc speed in
  let r := run (quiet sc) (render v x y width height wd cd) tt in
  result r = inr true /\
  texts_drawn (trace r)
  = [format_1f speed ++ py " m/s"]
    ++ match v with
       | clean_final =>
         wrapped sc description
                 (font_of sc (py "small_main") (py "small_desc")) 172 2
       | _ => [description]
       end
    ++ [fst (sc_direction sc direction)].
Proof.
  intros speed direction description r. subst r.
  pose proof (wpt_sound (answers_of sc) (quiet sc) _ _ tt (quiet_obeys sc)
                (body_texts sc v x y width height wd cd)) as H.
  unfold via in H. cbv zeta in H. destruct H as [Hres Htexts].
  unfold render. rewrite run_try. rewrite Hres. split; assumption.
Qed.

End Texts.

(** ** More on [wrap2_ellips] *)

Lemma split_from_nil (s cur : pystr) :
  split_from s cur = [] <-> cur = [] /\ Forall (fun c => isspace c = true) s.
Proof.
  revert cur. induction s as [| c s IH]; intros cur; simpl.
  - destruct cur; simpl; split; try discriminate; auto.
    + intros [H _]. discriminate H.
  - destruct (isspace c) eqn:Ec.
    + destruct cur as [| c0 cur]; simpl.
      * rewrite IH. split.
        -- intros [_ H]. split; [reflexivity | constructor; assumption].
        -- intros [_ H]. split; [reflexivity | inversion H; assumption].
      * split; [discriminate | intros [H _]; discriminate H].
    + rewrite IH. split.
      * intros [H _]. destruct cur; discriminate H.
      * intros [_ H]. inversion H; congruence.
Qed.

(** [text.split()] is empty exactly when the text is empty or all
    whitespace. *)
Lemma split_nil (text : pystr) :
  split text = [] <-> Forall (fun c => isspace c = true) text.
Proof.
  unfold split. rewrite split_from_nil. tauto.
Qed.

Section WrapEdges.
Context {P : Platform}.

(** X3. A text without a word, the empty text included, comes back as it is, as
    the only line, and nothing is measured. *)
Theorem wrap2_ellips_blank {S} (o : Oracle S) (s : S)
    (text : pystr) (font : option Font) (max_w max_lines : Z) :
  Forall (fun c => isspace c = true) text ->
  result (run o (wrap2_ellips text font max_w max_lines) s) = inr [text] /\
  trace (run o (wrap2_ellips text font max_w max_lines) s) = [].
Proof.
  intros H. apply split_nil in H. unfold wrap2_ellips. rewrite H.
  split; reflexivity.
Qed.

End WrapEdges.

Lemma wrap2_ellips_blank_witness :
  Forall (fun c => isspace c = true) (py "   ") /\
  result (run (quiet breeze) (wrap2_ellips (py "   ") None 172 2) tt)
  = inr [py "   "].
Proof.
  assert (H : Forall (fun c => isspace c = true) (py "   "))
    by (repeat constructor).
  split; [exact H |].
  exact (proj1 (wrap2_ellips_blank (quiet breeze) tt (py "   ") None 172 2 H)).
Defined.

(** ** The alternative arrow codes of the clean-final version *)

Section AltCodes.
Context {P : Platform}.

(** X11. When the arrow icon is missing, the alternative codes are looked up in
    order and the search stops at the first code that has an icon: that icon is
    taken and its code logged.  When no code has one, every code has been
    looked up, nothing is logged and the icon stays as it was. *)
Theorem try_alt_codes_first (sc : Scenario) (alt_codes : list pystr)
    (size : Z * Z) (cardinal_icon : option Icon) :
  let r := run (quiet sc) (try_alt_codes alt_codes size cardinal_icon) tt in
  result r = inr (match first_icon sc alt_codes size with
                  | Some (_, icon) => Some icon
                  | None => cardinal_icon
                  end) /\
  wind_icon_codes (trace r) = looked_up sc alt_codes size /\
  flat_map info_of (trace r)
  = match first_icon sc alt_codes size with
    | Some (code, _) => [MsgAlternativeCode code]
    | None => []
    end.
Proof.
  induction alt_codes as [| code codes IH]; cbn zeta.
  - repeat split.
  - cbn [try_alt_codes first_icon looked_up bind call run quiet respond fst snd
         result trace answer].
    destruct (sc_wind_icon sc code size) as [icon |] eqn:E;
      cbn [bind call run quiet respond fst snd result trace answer].
    + repeat split.
    + destruct IH as [H1 [H2 H3]]. repeat split.
      * exact H1.
      * unfold wind_icon_codes in *. simpl. rewrite H2. reflexivity.
      * simpl. exact H3.
Qed.

End AltCodes.

(** ** [wrap2_ellips] keeps the text *)

Lemma join_cons (sep a : pystr) (l : list pystr) :
  l <> [] -> join sep (a :: l) = a ++ sep ++ join sep l.
Proof. destruct l; [congruence | reflexivity]. Qed.

Lemma join_merge (sep a b : pystr) (l1 l2 : list pystr) :
  join sep (l1 ++ [a ++ sep ++ b] ++ l2) = join sep (l1 ++ [a; b] ++ l2).
Proof.
  induction l1 as [| x l1 IH].
  - destruct l2 as [| c l2]; simpl.
    + reflexivity.
    + rewrite <- !app_assoc. reflexivity.
  - change (join sep (x :: (l1 ++ [a ++ sep ++ b] ++ l2))
            = join sep (x :: (l1 ++ [a; b] ++ l2))).
    rewrite !join_cons.
    + rewrite IH. reflexivity.
    + destruct l1; discriminate.
    + destruct l1; discriminate.
Qed.

Lemma join_app_last (sep a t : pystr) (l : list pystr) :
  join sep (l ++ [a]) ++ t = join sep (l ++ [a ++ t]).
Proof.
  induction l as [| x l IH]; [reflexivity |].
  change (join sep (x :: (l ++ [a])) ++ t = join sep (x :: (l ++ [a ++ t]))).
  rewrite !join_cons by (destruct l; discriminate).
  rewrite <- IH. rewrite <- !app_assoc. reflexivity.
Qed.

Lemma join_group (sep : pystr) (l1 l2 : list pystr) :
  l2 <> [] -> join sep (l1 ++ [join sep l2]) = join sep (l1 ++ l2).
Proof.
  revert l1. induction l2 as [| a l2 IH]; intros l1 Hne; [congruence |].
  destruct l2 as [| b l2]; [reflexivity |].
  rewrite join_cons by discriminate.
  pose proof (join_merge sep a (join sep (b :: l2)) l1 []) as Hm.
  etransitivity; [exact Hm |].
  replace (l1 ++ [a; join sep (b :: l2)] ++ [])
    with ((l1 ++ [a]) ++ [join sep (b :: l2)])
    by (rewrite <- !app_assoc; reflexivity).
  rewrite IH by discriminate.
  rewrite <- app_assoc. reflexivity.
Qed.

Lemma lstrip_suffix (s : pystr) : exists u, s = u ++ lstrip s.
Proof.
  induction s as [| c s [u Hu]]; [exists []; reflexivity |].
  simpl. destruct (isspace c).
  - exists (c :: u). simpl. congruence.
  - exists []. reflexivity.
Qed.

Lemma rstrip_prefix (s : pystr) : exists t, s = rstrip s ++ t.
Proof.
  unfold rstrip. destruct (lstrip_suffix (rev s)) as [u Hu].
  exists (rev u).
  rewrite <- rev_app_distr, <- Hu. symmetry. apply rev_involutive.
Qed.

Lemma drop_last_prefix {A} (l : list A) : exists t, l = drop_last l ++ t.
Proof.
  unfold drop_last, slice_to. change (0 <=? -1) with false. cbv iota.
  eexists. symmetry. apply firstn_skipn.
Qed.

Section Keeps.
Context {P : Platform}.

Lemma ellipsize_prefix (Rr : Answers) (fuel : nat) (rest : pystr)
    (font : option Font) (max_w : Z) :
  wpt Rr (ellipsize fuel rest font max_w)
      (fun _ res =>
         match res with
         | inr r => exists t, rest = r ++ t
         | inl _ => True
         end).
Proof.
  revert rest. induction fuel as [| fuel IH]; intros rest.
  - cbn [ellipsize wpt]. exists []. symmetry. apply app_nil_r.
  - cbn [ellipsize text_width bind call wpt]. intros [e | b] _; cbn [bind wpt];
      [exact I |].
    destruct ((max_w <? bb2 b - bb0 b) && (3 <? len rest)).
    + eapply wpt_mono; [| apply IH].
      cbv beta. intros _ [e | r]; [auto |].
      intros [t Ht].
      destruct (drop_last_prefix rest) as [t1 H1].
      destruct (rstrip_prefix (drop_last rest)) as [t2 H2].
      exists (t ++ t2 ++ t1).
      rewrite H1 at 1. rewrite H2 at 1. rewrite Ht at 1.
      rewrite <- !app_assoc. reflexivity.
    + cbn [wpt]. exists []. symmetry. apply app_nil_r.
Qed.

Lemma wrap_loop_keeps (Rr : Answers) (font : option Font) (max_w max_lines : Z)
    (whole : pystr) (words lines : list pystr) (cur : pystr) :
  2 <= max_lines ->
  Forall word words ->
  (cur = [] \/ exists c s, cur = c :: s /\ isspace c = false) ->
  len lines <= max_lines - 2 ->
  join space (lines ++ (if truthy cur then [cur] else []) ++ words) = whole ->
  wpt Rr (wrap_loop font max_w max_lines words lines cur)
      (fun _ res =>
         match res with
         | inr ls => keeps_text whole ls
         | inl _ => True
         end).
Proof.
  intros Hmax. revert lines cur.
  induction words as [| w words IH]; intros lines cur Hw Hcur Hlen Hjoin.
  - cbn [wrap_loop wpt]. left.
    assert (Hl : (if truthy cur then lines ++ [cur] else lines)
                 = lines ++ (if truthy cur then [cur] else []) ++ []).
    { destruct (truthy cur); [reflexivity |]. symmetry. apply app_nil_r. }
    rewrite Hl, slice_to_all; [exact Hjoin |].
    unfold len in *. destruct (truthy cur); rewrite !length_app; simpl; lia.
  - assert (Hw1 : word w) by (inversion Hw; assumption).
    assert (Hw2 : Forall word words) by (inversion Hw; assumption).
    cbn [wrap_loop text_width bind call wpt]. intros [e | b] _; cbn [bind wpt];
      [exact I |].
    assert (Htest : join space (lines ++ [strip (cur ++ space ++ w)] ++ words)
                    = join space (lines ++ (if truthy cur then [cur] else [])
                                        ++ w :: words) /\
                    exists c s, strip (cur ++ space ++ w) = c :: s /\
                                isspace c = false).
    { destruct Hcur as [-> | [c [s [-> Hc]]]].
      - rewrite strip_space_word by exact Hw1. split; [reflexivity |].
        destruct (word_head w Hw1) as [c [s [-> Hc]]]. eauto.
      - rewrite (strip_joined (c :: s) w c s eq_refl Hc Hw1). split.
        + cbn [truthy]. apply (join_merge space (c :: s) w lines words).
        + exists c, (s ++ space ++ w). auto. }
    destruct Htest as [Hjoin' Hhead].
    destruct (bb2 b - bb0 b <=? max_w).
    + apply IH; [exact Hw2 | right; exact Hhead | exact Hlen |].
      destruct Hhead as [c [s [Hs _]]]. rewrite Hs in Hjoin' |- *.
      cbn [truthy]. rewrite Hjoin'. exact Hjoin.
    + set (lines' := if truthy cur then lines ++ [cur] else lines).
      assert (Hl : lines' ++ w :: words
                   = lines ++ (if truthy cur then [cur] else []) ++ w :: words).
      { subst lines'. destruct (truthy cur); [| reflexivity].
        rewrite <- app_assoc. reflexivity. }
      assert (Hlen' : len lines' <= max_lines - 1).
      { subst lines'. unfold len in *.
        destruct (truthy cur); [rewrite length_app; simpl |]; lia. }
      destruct (len lines' =? max_lines - 1) eqn:El.
      * apply wpt_bind. eapply wpt_mono; [| apply ellipsize_prefix].
        cbv beta. intros _ [e | rest] Hrest; [exact I |].
        destruct Hrest as [t Ht]. cbn [wpt].
        assert (Hwhole : join space (lines' ++ [join space (w :: words)]) = whole).
        { rewrite join_group by discriminate. rewrite Hl. exact Hjoin. }
        destruct (len rest <? len (join space (w :: words))) eqn:Et.
        -- right. exists lines', rest, t. split; [reflexivity |]. split.
           ++ rewrite join_app_last, <- Ht. symmetry. exact Hwhole.
           ++ intros ->. rewrite app_nil_r in Ht. rewrite Ht in Et.
              apply Z.ltb_lt in Et. lia.
        -- left. rewrite app_nil_r.
           assert (t = []).
           { apply Z.ltb_ge in Et. rewrite Ht in Et. unfold len in Et.
             rewrite length_app in Et. destruct t; [reflexivity | simpl in Et; lia]. }
           subst t. rewrite app_nil_r in Ht. rewrite <- Ht. exact Hwhole.
      * apply IH.
        -- exact Hw2.
        -- right. apply word_head, Hw1.
        -- apply Z.eqb_neq in El. lia.
        -- rewrite (word_truthy w Hw1). cbn [app]. rewrite Hl. exact Hjoin.
Qed.

(** X4. With room for two lines or more, [wrap2_ellips] drops no text unmarked:
    the lines it returns, joined by single spaces, are the whitespace-normalized
    text, or else the last line ends with the ellipsis and the lines without
    it are a proper beginning of that text. *)
Theorem wrap2_ellips_keeps_text {S} (o : Oracle S) (s : S)
    (text : pystr) (font : option Font) (max_w max_lines : Z) :
  2 <= max_lines ->
  split text <> [] ->
  match result (run o (wrap2_ellips text font max_w max_lines) s) with
  | inr lines => keeps_text (normalized text) lines
  | inl _ => True
  end.
Proof.
  intros Hmax Hne.
  apply (wpt_sound any_answer o _
           (fun _ res => match res with
                         | inr ls => keeps_text (normalized text) ls
                         | inl _ => True
                         end) s (obeys_any o)).
  unfold wrap2_ellips, normalized.
  pose proof (split_words text) as Hw.
  destruct (split text) as [| w words]; [congruence |].
  apply wrap_loop_keeps; auto.
  unfold len. simpl. lia.
Qed.

End Keeps.

(** ** [get_module_info] *)

Section Dicts.
Context {V : Type}.

Lemma str_eqb_eq (a b : pystr) : str_eqb a b = true <-> a = b.
Proof.
  unfold str_eqb. destruct (list_eq_dec N.eq_dec a b); split; congruence.
Qed.

Lemma dict_get_set_same (d : PyDict V) (k : pystr) (v : V) :
  dict_get (dict_set d k v) k = Some v.
Proof.
  induction d as [| [k' v'] d IH]; simpl.
  - assert (H : str_eqb k k = true) by (apply str_eqb_eq; reflexivity).
    rewrite H. reflexivity.
  - destruct (str_eqb k' k) eqn:E; simpl; rewrite E; auto.
Qed.

Lemma dict_get_set_other (d : PyDict V) (k k' : pystr) (v : V) :
  k' <> k -> dict_get (dict_set d k v) k' = dict_get d k'.
Proof.
  intros Hne. induction d as [| [k0 v0] d IH]; simpl.
  - destruct (str_eqb k k') eqn:E; [| reflexivity].
    apply str_eqb_eq in E. congruence.
  - destruct (str_eqb k0 k) eqn:E; simpl.
    + apply str_eqb_eq in E. subst k0.
      destruct (str_eqb k k') eqn:E'; [| reflexivity].
      apply str_eqb_eq in E'. congruence.
    + rewrite IH. reflexivity.
Qed.

Lemma dict_get_none (d : PyDict V) (k : pystr) :
  dict_get d k = None <-> ~ In k (dict_keys d).
Proof.
  induction d as [| [k' v'] d IH]; simpl.
  - tauto.
  - destruct (str_eqb k' k) eqn:E.
    + apply str_eqb_eq in E. split; [discriminate | tauto].
    + rewrite IH. split.
      * intros H [H1 | H1]; [| tauto].
        apply str_eqb_eq in H1. congruence.
      * tauto.
Qed.

Lemma dict_keys_set (d : PyDict V) (k : pystr) (v : V) :
  dict_keys (dict_set d k v)
  = dict_keys d ++ match dict_get d k with Some _ => [] | None => [k] end.
Proof.
  induction d as [| [k' v'] d IH]; simpl; [reflexivity |].
  destruct (str_eqb k' k) eqn:E; simpl.
  - rewrite app_nil_r. reflexivity.
  - rewrite IH. reflexivity.
Qed.

(** After [d.update(other)], a key of [other] has the value [other] gives it
    and any other key the value it had. *)
Lemma dict_get_update (d other : PyDict V) (k : pystr) :
  NoDup (dict_keys other) ->
  dict_get (dict_update d other) k
  = match dict_get other k with
    | Some v => Some v
    | None => dict_get d k
    end.
Proof.
  unfold dict_update. revert d.
  induction other as [| [k0 v0] other IH]; intros d Hnd; simpl; [reflexivity |].
  inversion Hnd as [| ? ? Hnotin Hnd']; subst.
  rewrite IH by exact Hnd'.
  destruct (str_eqb k0 k) eqn:E.
  - apply str_eqb_eq in E. subst k0.
    apply dict_get_none in Hnotin. rewrite Hnotin.
    apply dict_get_set_same.
  - destruct (dict_get other k); [reflexivity |].
    apply dict_get_set_other. intros ->.
    assert (H : str_eqb k0 k0 = true) by (apply str_eqb_eq; reflexivity).
    congruence.
Qed.

(** [d.update(other)] keeps the keys of [d] where they are and puts the new
    keys of [other] after them, in the order of [other]. *)
Lemma dict_keys_update (d other : PyDict V) :
  NoDup (dict_keys other) ->
  dict_keys (dict_update d other)
  = dict_keys d
    ++ filter (fun k => match dict_get d k with Some _ => false | None => true end)
              (dict_keys other).
Proof.
  unfold dict_update. revert d.
  induction other as [| [k0 v0] other IH]; intros d Hnd; simpl.
  - symmetry. apply app_nil_r.
  - inversion Hnd as [| ? ? Hnotin Hnd']; subst.
    rewrite IH by exact Hnd'. rewrite dict_keys_set.
    rewrite <- app_assoc. f_equal.
    assert (Hf : forall l, ~ In k0 l ->
               filter (fun k => match dict_get (dict_set d k0 v0) k with
                                | Some _ => false | None => true end) l
               = filter (fun k => match dict_get d k with
                                  | Some _ => false | None => true end) l).
    { intros l Hl. apply filter_ext_in. intros k Hk.
      rewrite dict_get_set_other; [reflexivity |]. intros ->. tauto. }
    rewrite Hf by exact Hnotin.
    destruct (dict_get d k0); reflexivity.
Qed.

End Dicts.

Lemma module_info_keys (v : Version) (B : Type) :
  dict_keys (@module_info v B)
  = [py "purpose"; py "data_sources"; py "layout"]
    ++ match v with clean_final => [py "design"] | _ => [] end
    ++ [py "features"].
Proof. destruct v; reflexivity. Qed.

Lemma module_info_NoDup (v : Version) (B : Type) :
  NoDup (dict_keys (@module_info v B)).
Proof.
  rewrite module_info_keys.
  destruct v; repeat constructor; simpl; intuition discriminate.
Qed.

(** X13. [get_module_info] sets 'purpose', 'data_sources', 'layout' and 'features'
    (and 'design' in the clean-final version) to the version's own values,
    whatever the base class had there; every other key of the base class's
    dict comes out with the value it had; the keys of the base class keep
    their places and the new ones follow in the order of the literal. *)
Theorem get_module_info_entries (v : Version) (B : Type)
    (base : PyDict (InfoValue B)) (k : pystr) :
  dict_get (get_module_info v base) k
  = match dict_get (module_info v) k with
    | Some value => Some value
    | None => dict_get base k
    end /\
  dict_keys (get_module_info v base)
  = dict_keys base
    ++ filter (fun k => match dict_get base k with Some _ => false | None => true end)
              ([py "purpose"; py "data_sources"; py "layout"]
               ++ match v with clean_final => [py "design"] | _ => [] end
               ++ [py "features"]).
Proof.
  unfold get_module_info. cbv zeta. split.
  - apply dict_get_update, module_info_NoDup.
  - rewrite dict_keys_update by apply module_info_NoDup.
    rewrite module_info_keys. reflexivity.
Qed.

(** X14. The four versions report the same data source and the same layout
    position, whatever the base class reports; only the clean-final version
    sets 'design', the others pass on what the base class has there. *)
Theorem get_module_info_across_versions (v : Version) (B : Type)
    (base : PyDict (InfoValue B)) :
  dict_get (get_module_info v base) (py "data_sources")
  = Some (list_value [py "SMHI vindprognoser (ws + wd parametrar)"]) /\
  dict_get (get_module_info v base) (py "layout")
  = Some (text_value (py "Ersätter barometer-modulen (MEDIUM 1 position)")) /\
  dict_get (get_module_info v base) (py "design")
  = match v with
    | clean_final => Some (text_value (py "Kollegans UX-analys implementerad"))
    | _ => dict_get base (py "design")
    end.
Proof.
  unfold get_module_info. cbv zeta.
  rewrite !dict_get_update by apply module_info_NoDup.
  destruct v; repeat split.
Qed.

Lemma wrap2_ellips_keeps_text_witness :
  2 <= 2 /\
  split (py "Mycket hård vind") <> [] /\
  keeps_text (normalized (py "Mycket hård vind")) [py "Mycket"; py "hård v…"].
Proof.
  assert (H : split (py "Mycket hård vind") <> []) by (vm_compute; discriminate).
  split; [lia |]. split; [exact H |].
  exact (wrap2_ellips_keeps_text (quiet breeze) tt (py "Mycket hård vind") None
           60 2 ltac:(lia) H).
Defined.

(** ** The lines of [wrap2_ellips] fit *)

Lemma Forall_firstn {A} (Q : A -> Prop) (n : nat) (l : list A) :
  Forall Q l -> Forall Q (firstn n l).
Proof.
  revert n. induction l as [| a l IH]; intros [| n] H; simpl; auto.
  inversion H; subst. constructor; auto.
Qed.

Lemma Forall_slice_to {A} (Q : A -> Prop) (n : Z) (l : list A) :
  Forall Q l -> Forall Q (slice_to l n).
Proof.
  intros H. unfold slice_to. destruct (0 <=? n); apply Forall_firstn, H.
Qed.

Lemma Forall_removelast {A} (Q : A -> Prop) (l : list A) :
  Forall Q l -> Forall Q (removelast l).
Proof.
  induction l as [| a l IH]; intros H; simpl; auto.
  inversion H; subst. destruct l; [constructor |]. constructor; auto.
Qed.

Lemma Forall_last {A} (Q : A -> Prop) (l : list A) (d : A) :
  Forall Q l -> l = [] \/ Q (last l d).
Proof.
  induction l as [| a l IH]; intros H; [auto |]. right.
  inversion H as [| ? ? Ha Hl]; subst.
  destruct l as [| b l]; [exact Ha |].
  destruct (IH Hl) as [E | E]; [discriminate | exact E].
Qed.

Section Fitting.
Context {P : Platform}.

(** The [while] loop stops on a stem that fits with the ellipsis or is down to
    three code points. *)
Lemma ellipsize_exit (m : pystr -> option Font -> BBox) (fuel : nat)
    (rest : pystr) (font : option Font) (max_w : Z) :
  (List.length rest < fuel)%nat ->
  wpt (measured_by m) (ellipsize fuel rest font max_w)
      (fun _ res =>
         exists r, res = inr r /\
                   (fits m font max_w (r ++ ellipsis) \/ len r <= 3)).
Proof.
  revert rest. induction fuel as [| fuel IH]; intros rest Hfuel; [lia |].
  cbn [ellipsize text_width bind call wpt]. intros r Hr.
  cbn [measured_by] in Hr. subst r. cbn [bind wpt].
  destruct (max_w <? bb2 (m (rest ++ ellipsis) font)
                     - bb0 (m (rest ++ ellipsis) font)) eqn:E1; cbn [andb].
  - destruct (3 <? len rest) eqn:E2.
    + apply IH.
      pose proof (length_rstrip (drop_last rest)).
      assert (rest <> []) by (intros ->; vm_compute in E2; discriminate).
      pose proof (length_drop_last rest ltac:(assumption)). lia.
    + cbn [wpt]. exists rest. split; [reflexivity |].
      right. apply Z.ltb_ge in E2. exact E2.
  - cbn [wpt]. exists rest. split; [reflexivity |].
    left. unfold fits, bbox_width. apply Z.ltb_ge in E1. exact E1.
Qed.

Lemma wrap_loop_fit (m : pystr -> option Font -> BBox) (font : option Font)
    (max_w max_lines : Z) (words lines : list pystr) (cur : pystr) :
  let ok := fun line => fits m font max_w line \/ word line in
  Forall word words ->
  Forall ok lines ->
  (cur = [] \/ ok cur) ->
  wpt (measured_by m) (wrap_loop font max_w max_lines words lines cur)
      (fun _ res =>
         match res with
         | inr ls =>
           Forall ok (removelast ls) /\
           (ls = [] \/ ok (last ls []) \/ packed m font max_w (last ls []))
         | inl _ => True
         end).
Proof.
  intros ok. revert lines cur.
  induction words as [| w words IH]; intros lines cur Hw Hlines Hcur.
  - cbn [wrap_loop wpt].
    assert (Hall : Forall ok (if truthy cur then lines ++ [cur] else lines)).
    { destruct (truthy cur) eqn:Et; [| exact Hlines].
      apply Forall_app. split; [exact Hlines |].
      constructor; [| constructor].
      destruct Hcur as [-> | H]; [discriminate Et | exact H]. }
    apply (Forall_slice_to ok max_lines) in Hall. split.
    + apply Forall_removelast, Hall.
    + destruct (Forall_last ok _ [] Hall) as [H | H]; auto.
  - assert (Hw1 : word w) by (inversion Hw; assumption).
    assert (Hw2 : Forall word words) by (inversion Hw; assumption).
    cbn [wrap_loop text_width bind call wpt]. intros r Hr.
    cbn [measured_by] in Hr. subst r. cbn [bind wpt].
    destruct (bb2 (m (strip (cur ++ space ++ w)) font)
              - bb0 (m (strip (cur ++ space ++ w)) font) <=? max_w) eqn:E.
    + apply IH; [exact Hw2 | exact Hlines |].
      right. left. unfold fits, bbox_width. apply Z.leb_le, E.
    + assert (Hlines' : Forall ok (if truthy cur then lines ++ [cur] else lines)).
      { destruct (truthy cur) eqn:Et; [| exact Hlines].
        apply Forall_app. split; [exact Hlines |].
        constructor; [| constructor].
        destruct Hcur as [-> | H]; [discriminate Et | exact H]. }
      destruct (_ =? _).
      * apply wpt_bind. eapply wpt_mono; [| apply ellipsize_exit; lia].
        cbv beta. intros _ res [rest [-> Hrest]]. cbn [wpt].
        rewrite removelast_last, last_last. split; [exact Hlines' |].
        right. right. exists rest. split; [| exact Hrest].
        destruct (_ <? _); [left; reflexivity | right; apply app_nil_r].
      * apply IH; [exact Hw2 | exact Hlines' |].
        right. right. exact Hw1.
Qed.

(** X5. When [draw.textbbox] measures by a function [m] and the text has a word:
    every line that [wrap2_ellips] returns, the last one apart, fits in
    [max_w] or is a single word; the last line does so too, or it is the rest
    of the words packed in one line, cut so that it fits with the ellipsis or
    down to three code points. *)
Theorem wrap2_ellips_lines_fit {S} (o : Oracle S) (s : S)
    (m : pystr -> option Font -> BBox)
    (text : pystr) (font : option Font) (max_w max_lines : Z) :
  obeys o (measured_by m) ->
  split text <> [] ->
  let ok := fun line => fits m font max_w line \/ word line in
  match result (run o (wrap2_ellips text font max_w max_lines) s) with
  | inr lines =>
    Forall ok (removelast lines) /\
    (lines = [] \/ ok (last lines []) \/ packed m font max_w (last lines []))
  | inl _ => True
  end.
Proof.
  intros Ho Hne ok.
  apply (wpt_sound (measured_by m) o _
           (fun _ res =>
              match res with
              | inr ls =>
                Forall ok (removelast ls) /\
                (ls = [] \/ ok (last ls []) \/ packed m font max_w (last ls []))
              | inl _ => True
              end) s Ho).
  unfold wrap2_ellips.
  pose proof (split_words text) as Hw.
  destruct (split text) as [| w words]; [congruence |].
  apply wrap_loop_fit; auto.
Qed.

End Fitting.

Lemma wrap2_ellips_lines_fit_witness :
  let ok := fun line => fits (sc_textbbox breeze) None 60 line \/ word line in
  split (py "Mycket hård vind") <> [] /\
  Forall ok (removelast [py "Mycket"; py "hård v…"]) /\
  ([py "Mycket"; py "hård v…"] = [] \/
   ok (last [py "Mycket"; py "hård v…"] []) \/
   packed (sc_textbbox breeze) None 60 (last [py "Mycket"; py "hård v…"] [])).
Proof.
  assert (H : split (py "Mycket hård vind") <> []) by (vm_compute; discriminate).
  split; [exact H |].
  pose proof (wrap2_ellips_lines_fit (quiet breeze) tt (sc_textbbox breeze)
                (py "Mycket hård vind") None 60 2
                (quiet_measured_by breeze) H) as Hfit.
  cbv zeta in Hfit.
  change (result (run (quiet breeze)
                      (wrap2_ellips (py "Mycket hård vind") None 60 2) tt))
    with (@inr PyExc _ [py "Mycket"; py "hård v…"]) in Hfit.
  exact Hfit.
Defined.

(** ** The arrow icon looked up *)

Section Arrow.
Context {P : Platform}.

Lemma try_alt_codes_codes (sc : Scenario) (alt_codes : list pystr)
    (size : Z * Z) (cardinal_icon : option Icon) :
  wpt (answers_of sc) (try_alt_codes alt_codes size cardinal_icon)
      (via wind_icon_code_of (fun l res =>
         match res with
         | inr _ => l = looked_up sc alt_codes size
         | inl _ => True
         end)).
Proof.
  induction alt_codes as [| code codes IH].
  - apply via_ret. reflexivity.
  - cbn [try_alt_codes looked_up].
    apply via_call; [intros; exact I |].
    intros a Hr. unfold answers_of in Hr. injection Hr as ->. cbn [answer].
    destruct (sc_wind_icon sc code size) as [icon |].
    + apply via_call_silent; [exact eq_refl | intros; exact I |].
      intros _ _. apply via_ret. reflexivity.
    + eapply wpt_mono; [| apply IH].
      unfold via. cbv beta. intros tr [e | a] H; [exact I |].
      simpl. rewrite H. reflexivity.
Qed.

Lemma body_arrow_codes (sc : Scenario) (v : Version) (x y width height : Z)
    (wd cd : Dict) :
  let code := snd (sc_direction sc (sc_value sc wd (py "wind_direction") zero)) in
  wpt (answers_of sc) (body v x y width height wd cd)
      (via wind_icon_code_of (fun l res =>
         match res with
         | inr _ =>
           l = code ::
               match v with
               | clean_final =>
                 match sc_wind_icon sc code (32, 32) with
                 | Some _ => []
                 | None =>
                   looked_up sc [py "n"; py "N"; upper code; lower code] (32, 32)
                 end
               | _ => []
               end
         | inl _ => True
         end)).
Proof.
  intros code. subst code.
  destruct v; unfold_body; cbv zeta.
  1-3: repeat via_go ltac:(exact I) quiet_ans fail; reflexivity.
  repeat via_go ltac:(exact I) quiet_ans ltac:(silent_loops ltac:(exact I)).
  all: try solve [cbv beta; cbn [wind_icon_code_of app snd];
                  match goal with
                  | H : sc_wind_icon _ _ _ = _ |- _ => rewrite H
                  end; reflexivity].
  all: apply via_bind; eapply wpt_mono; [| apply try_alt_codes_codes];
    intros ?tr [?e | ?ic] Hcodes; unfold via in Hcodes; unfold via at 1;
    [exact I |]; rewrite Hcodes; clear Hcodes.
  all: repeat via_go ltac:(exact I) quiet_ans fail.
  all: cbv beta; cbn [wind_icon_code_of app snd];
    match goal with
    | H : sc_wind_icon _ _ _ = _ |- _ => rewrite H
    end; rewrite ?app_nil_r; reflexivity.
Qed.

(** X10. When no call raises, every version looks up the arrow icon under the
    cardinal code that [get_wind_direction_info] gave for the wind direction
    read; the clean-final version, when that icon is missing, goes on with
    'n', 'N', the code in upper case and the code in lower case, up to the
    first that has an icon. *)
Theorem arrow_icon_lookups (sc : Scenario) (v : Version) (x y width height : Z)
    (wd cd : Dict) :
  let code := snd (sc_direction sc (sc_value sc wd (py "wind_direction") zero)) in
  let r := run (quiet sc) (render v x y width height wd cd) tt in
  wind_icon_codes (trace r)
  = code ::
    match v with
    | clean_final =>
      match sc_wind_icon sc code (32, 32) with
      | Some _ => []
      | None => looked_up sc [py "n"; py "N"; upper code; lower code] (32, 32)
      end
    | _ => []
    end.
Proof.
  intros code r. subst code r. unfold wind_icon_codes.
  rewrite (render_shows_body wind_icon_code_of) by reflexivity.
  pose proof (wpt_sound (answers_of sc) (quiet sc) _ _ tt (quiet_obeys sc)
                (body_arrow_codes sc v x y width height wd cd)) as H.
  pose proof (wpt_sound (answers_of sc) (quiet sc) _ _ tt (quiet_obeys sc)
                (body_texts sc v x y width height wd cd)) as Ht.
  unfold via in H, Ht. cbv zeta in H, Ht. destruct Ht as [Hres _].
  rewrite Hres in H. exact H.
Qed.

End Arrow.

(** ** The collision guard of the clean-final version *)

Section Guard.
Context {P : Platform}.

Lemma body_illustration_icon (sc : Scenario) (x y width height : Z)
    (wd cd : Dict) (icon : Icon) :
  sc_system_icon sc (py "strong-wind") (32, 32) = Some icon ->
  let ms_text := format_1f (sc_value sc wd (py "wind_speed") zero) ++ py " m/s" in
  let ms_box := sc_textbbox sc ms_text
                            (font_of sc (py "large_main") (py "medium_main")) in
  let moved := x + width - 76 <? x + 20 + (bb2 ms_box - bb0 ms_box) + 12 in
  wpt (answers_of sc) (body_clean_final x y width height wd cd)
      (via paste_of (fun l res =>
         match res with
         | inr _ =>
           hd_error l
           = Some (icon, x + width - 56,
                   if moved then y + 52 + (bb3 ms_box - bb1 ms_box) else y + 10)
         | inl _ => True
         end)).
Proof.
  intros Hicon ms_text ms_box moved. subst ms_text ms_box moved.
  unfold body_clean_final, font_of. cbv zeta. cbn [answer].
  repeat via_go ltac:(exact I) quiet_ans ltac:(silent_loops ltac:(exact I)).
  all: try congruence.
  all: injection Hicon as ->; cbn [paste_of app hd_error fst snd];
    match goal with
    | Hb : (_ <? _) = true |- _ =>
      apply Z.ltb_lt in Hb; cbn [fst] in Hb;
      match goal with
      | |- context [if ?c then _ else _] =>
        replace c with true by (symmetry; apply Z.ltb_lt; lia)
      end
    | Hb : (_ <? _) = false |- _ =>
      apply Z.ltb_ge in Hb; cbn [fst] in Hb;
      match goal with
      | |- context [if ?c then _ else _] =>
        replace c with false by (symmetry; apply Z.ltb_ge; lia)
      end
    end;
    apply f_equal; apply f_equal2;
      [apply f_equal2; [reflexivity | lia]
      | Z.to_euclidean_division_equations; lia].
Qed.

Lemma body_speed_text (sc : Scenario) (x y width height : Z) (wd cd : Dict) :
  let ms_text := format_1f (sc_value sc wd (py "wind_speed") zero) ++ py " m/s" in
  let ms_font := font_of sc (py "large_main") (py "medium_main") in
  wpt (answers_of sc) (body_clean_final x y width height wd cd)
      (via text_draw_of (fun l res =>
         match res with
         | inr _ => hd_error l = Some ((x + 20, y + 20), ms_text, ms_font)
         | inl _ => True
         end)).
Proof.
  intros ms_text ms_font. subst ms_text ms_font.
  unfold body_clean_final, font_of. cbv zeta. cbn [answer].
  repeat via_go ltac:(exact I) quiet_ans ltac:(silent_loops ltac:(exact I)).
  apply wpt_any. intros tr [e | ok]; [exact I | reflexivity].
Qed.

(** X12. The collision guard.  When no call raises and the illustration icon is
    there, the clean-final version draws the speed text first of all texts,
    anchored at (x + 20, y + 20), and pastes the illustration icon first of
    all icons, 56 pixels left of the module's right edge: at y + 10 when the
    right edge of the speed text as drawn (its anchor plus its measured
    width) plus 12 does not pass the right column at x + width - 76, and then
    that text ends 32 pixels or more before the icon; moved down to 4 pixels
    above the description otherwise. *)
Theorem illustration_icon_guarded (sc : Scenario) (x y width height : Z)
    (wd cd : Dict) (icon : Icon) :
  sc_system_icon sc (py "strong-wind") (32, 32) = Some icon ->
  let ms_text := format_1f (sc_value sc wd (py "wind_speed") zero) ++ py " m/s" in
  let ms_font := font_of sc (py "large_main") (py "medium_main") in
  let ms_box := sc_textbbox sc ms_text ms_font in
  let desc_y := y + 20 + (bb3 ms_box - bb1 ms_box) + 36 in
  let r := run (quiet sc) (render clean_final x y width height wd cd) tt in
  exists speed_text icon_x icon_y,
    hd_error (text_draws (trace r)) = Some speed_text /\
    speed_text = ((x + 20, y + 20), ms_text, ms_font) /\
    hd_error (pastes (trace r)) = Some (icon, icon_x, icon_y) /\
    icon_x = x + width - 56 /\
    let moved := x + width - 76 <? right_edge sc speed_text + 12 in
    icon_y = (if moved then desc_y - 4 else y + 10) /\
    (moved = false -> right_edge sc speed_text + 32 <= icon_x).
Proof.
  intros Hicon ms_text ms_font ms_box desc_y r.
  pose proof (wpt_sound (answers_of sc) (quiet sc) _ _ tt (quiet_obeys sc)
                (body_illustration_icon sc x y width height wd cd icon Hicon))
    as H.
  pose proof (wpt_sound (answers_of sc) (quiet sc) _ _ tt (quiet_obeys sc)
                (body_speed_text sc x y width height wd cd)) as Hs.
  pose proof (wpt_sound (answers_of sc) (quiet sc) _ _ tt (quiet_obeys sc)
                (body_texts sc clean_final x y width height wd cd)) as Ht.
  unfold via in H, Hs, Ht. cbv zeta in H, Hs, Ht. destruct Ht as [Hres _].
  change (body clean_final x y width height wd cd)
    with (body_clean_final x y width height wd cd) in Hres.
  rewrite Hres in H, Hs.
  eexists _, _, _. subst r. unfold text_draws, pastes.
  rewrite (render_shows_body text_draw_of) by reflexivity.
  rewrite (render_shows_body paste_of) by reflexivity.
  change (body clean_final x y width height wd cd)
    with (body_clean_final x y width height wd cd).
  split; [exact Hs |]. split; [reflexivity |].
  split; [exact H |]. split; [reflexivity |].
  unfold right_edge, bbox_width. cbn [fst snd]. fold ms_text ms_font ms_box.
  subst desc_y. split.
  - destruct (_ <? _); lia.
  - intros Hm. apply Z.ltb_ge in Hm. lia.
Qed.

End Guard.

Lemma illustration_icon_guarded_witness :
  let r := run (quiet breeze)
               (render clean_final 0 0 240 200 demo_weather demo_context) tt in
  sc_system_icon breeze (py "strong-wind") (32, 32) = Some (py "strong-wind") /\
  exists speed_text,
    hd_error (text_draws (trace r)) = Some speed_text /\
    speed_text = ((20, 20), py "4.8 m/s", Some (py "large_main")) /\
    hd_error (pastes (trace r)) = Some (py "strong-wind", 184, 10) /\
    right_edge breeze speed_text + 32 <= 184.
Proof.
  split; [reflexivity |].
  destruct (illustration_icon_guarded breeze 0 0 240 200 demo_weather
              demo_context (py "strong-wind") eq_refl)
    as (d & ix & iy & Hd & Ed & Hp & Ex & Ey & Hm).
  exists d. subst d ix.
  split; [exact Hd |]. split; [reflexivity |].
  assert (Eiy : iy = 10) by (rewrite Ey; vm_compute; reflexivity).
  subst iy. split; [exact Hp |].
  apply Hm. vm_compute. reflexivity.
Defined.
